(** * cloudscraper: the session orchestrator, its throttle, the cookie
      refresh and the transport adapter's source address check.

    A shallow embedding of [cloudscraper/__init__.py].  The definitions
    come first, one module per class or helper of the source:

    - [CipherSuiteAdapter]: the validation of [source_address] done by the
      adapter's constructor;
    - [CookieJar]: the cookie store of the session as the orchestrator uses
      it ([list_domains], [clear]) and [_clear_cloudflare_cookies];
    - [CloudScraper]: the session record, the throttle
      [_apply_request_throttling] and the control loop [request], as
      computations over the session, the environment (clock, network, proxy
      manager) and the trace of the calls made on the collaborators;
    - [Scripted]: a concrete environment, to run [request] on examples.

    The facts follow: how each step of [request] leaves the session, the
    invariant of the in-flight counter across nested calls, and the
    properties C1 to C10 of the specification. *)

From Stdlib Require Import ZArith QArith Lqa Lia List Bool.
From stdpp Require Import base option list strings gmap.

Local Open Scope Z_scope.

#[local] Set Warnings "-register-all,-clear-no-such-hyp".

(** ** Exceptions of the source that the modelled code can raise *)

Inductive Exn : Type :=
| CloudflareLoopProtection (tried : Z)
| ProxyError
| ConnectionError
| TypeError
| KeyError
| OtherError (name : string).

Global Instance Exn_eq_dec : EqDecision Exn.
Proof. solve_decision. Defined.

(* ===================================================================== *)
(** ** The transport adapter: [CipherSuiteAdapter.__init__]               *)
(* ===================================================================== *)

Module CipherSuiteAdapter.

(** The Python values a caller can pass as [source_address]. *)
Inductive PyVal : Type :=
| PyNone
| PyBool (b : bool)
| PyInt (z : Z)
| PyStr (s : string)
| PyTuple (items : list PyVal)
| PyList (items : list PyVal).

(** Python truth value, as [if self.source_address:] takes it. *)
Definition truthy (v : PyVal) : bool :=
  match v with
  | PyNone => false
  | PyBool b => b
  | PyInt z => negb (z =? 0)
  | PyStr s => negb (String.eqb s EmptyString)
  | PyTuple items | PyList items =>
      match items with [] => false | _ :: _ => true end
  end.

Definition isinstance_str (v : PyVal) : bool :=
  match v with PyStr _ => true | _ => false end.

Definition isinstance_tuple (v : PyVal) : bool :=
  match v with PyTuple _ => true | _ => false end.

(** Lines 64-75 of the constructor: the value kept in
    [self.source_address], or the exception raised. *)
Definition init_source_address (source_address : PyVal) : Exn + PyVal :=
  if truthy source_address then
    let source_address :=
      if isinstance_str source_address
      then PyTuple [source_address; PyInt 0]
      else source_address in
    if negb (isinstance_tuple source_address)
    then inl TypeError
    else inr source_address
  else inr source_address.

(** The shapes the specification recognises: an address string, or an
    address-plus-port pair. *)
Definition recognized_shape (v : PyVal) : bool :=
  match v with
  | PyStr _ => true
  | PyTuple [PyStr _; PyInt _] => true
  | _ => false
  end.

End CipherSuiteAdapter.

(* ===================================================================== *)
(** ** The cookie jar and [_clear_cloudflare_cookies]                     *)
(* ===================================================================== *)

Module CookieJar.

(** [http.cookiejar.CookieJar] keeps its cookies in a dictionary indexed
    by domain, then path, then name.  The three keys are kept together
    here; the value is the cookie's value. *)
Definition key : Type := string * string * string.

Definition domain_of (k : key) : string := k.1.1.
Definition path_of (k : key) : string := k.1.2.
Definition name_of (k : key) : string := k.2.

Abbreviation jar := (gmap (string * string * string) string).

(** [RequestsCookieJar.list_domains]: the domains of the cookies of the
    jar, each listed once. *)
Definition list_domains (j : jar) : list string :=
  remove_dups (domain_of <$> (map_to_list j).*1).

(** [CookieJar.clear(domain, path, name)]:
    [del self._cookies[domain][path][name]], a [KeyError] when there is
    no such cookie. *)
Definition clear (domain path name : string) (j : jar) : Exn + jar :=
  match j !! (domain, path, name) with
  | Some _ => inr (delete (domain, path, name) j)
  | None => inl KeyError
  end.

Definition cf_cookie_names : list string :=
  ["cf_clearance"; "cf_chl_2"; "cf_chl_prog"; "cf_chl_rc_ni";
   "cf_turnstile"; "__cf_bm"]%string.

(** The body of the inner loop: [try: clear(...) except: pass]. *)
Definition clear_or_pass (name : string) (j : jar) (domain : string) : jar :=
  match clear domain "/" name j with
  | inr j' => j'
  | inl _ => j
  end.

(** One round of the outer loop; the list of domains is taken once, when
    the inner loop starts. *)
Definition clear_name (j : jar) (name : string) : jar :=
  foldl (clear_or_pass name) j (list_domains j).

Definition _clear_cloudflare_cookies (j : jar) : jar :=
  foldl clear_name j cf_cookie_names.

End CookieJar.

(* ===================================================================== *)
(** ** The session orchestrator: [CloudScraper]                           *)
(* ===================================================================== *)

Module CloudScraper.

(** *** Data *)

(** A [proxies] dictionary, scheme to proxy URL.  Python takes the empty
    dictionary, like [None], for false. *)
Abbreviation Proxies := (gmap string string).

Definition truthy (proxies : option Proxies) : bool :=
  match proxies with
  | Some p => negb (bool_decide (p = ∅))
  | None => false
  end.

Definition python_ne (a b : Proxies) : bool := negb (bool_decide (a = b)).

(** The keyword arguments of a call, as far as [request] looks at them. *)
Record Kwargs : Type := {
  kw_skip_throttle : bool;          (* kwargs['_skip_throttle'], False when absent *)
  kw_proxies : option Proxies;      (* kwargs.get('proxies') *)
  kw_rest : list (string * string)  (* the keywords request passes through *)
}.

Definition pop_skip_throttle (kwargs : Kwargs) : Kwargs :=
  {| kw_skip_throttle := false;
     kw_proxies := kw_proxies kwargs;
     kw_rest := kw_rest kwargs |}.

Definition set_kw_proxies (p : option Proxies) (kwargs : Kwargs) : Kwargs :=
  {| kw_skip_throttle := kw_skip_throttle kwargs;
     kw_proxies := p;
     kw_rest := kw_rest kwargs |}.

Record Response : Type := {
  status_code : Z;
  is_redirect : bool;
  content : string
}.

(** The five challenge variants, in the order [request] tests them. *)
Inductive Variant : Type :=
| Turnstile | V3_JS | V2_Captcha | V2_JS | V1_Legacy.

Global Instance Variant_eq_dec : EqDecision Variant.
Proof. solve_decision. Defined.

(** The attributes of the session that [request] and the throttle read
    or write.  (The cookie jar is written by the transport, not by
    [request]; it is modelled on its own in [CookieJar].) *)
Record Session : Type := {
  disableCloudflareV1 : bool;
  disableCloudflareV2 : bool;
  disableCloudflareV3 : bool;
  disableTurnstile : bool;
  _solveDepthCnt : Z;
  solveDepth : Z;
  request_count : Z;
  _403_retry_count : Z;
  _in_403_retry : bool;             (* hasattr(self, '_in_403_retry') *)
  last_request_time : Q;
  min_request_interval : Q;
  max_concurrent_requests : Z;
  current_concurrent_requests : Z;
  enable_stealth : bool;
  proxies : Proxies
}.

Definition set_solveDepthCnt (v : Z) (s : Session) : Session :=
  {| disableCloudflareV1 := disableCloudflareV1 s;
     disableCloudflareV2 := disableCloudflareV2 s;
     disableCloudflareV3 := disableCloudflareV3 s;
     disableTurnstile := disableTurnstile s;
     _solveDepthCnt := v;
     solveDepth := solveDepth s;
     request_count := request_count s;
     _403_retry_count := _403_retry_count s;
     _in_403_retry := _in_403_retry s;
     last_request_time := last_request_time s;
     min_request_interval := min_request_interval s;
     max_concurrent_requests := max_concurrent_requests s;
     current_concurrent_requests := current_concurrent_requests s;
     enable_stealth := enable_stealth s;
     proxies := proxies s |}.

Definition set_request_count (v : Z) (s : Session) : Session :=
  {| disableCloudflareV1 := disableCloudflareV1 s;
     disableCloudflareV2 := disableCloudflareV2 s;
     disableCloudflareV3 := disableCloudflareV3 s;
     disableTurnstile := disableTurnstile s;
     _solveDepthCnt := _solveDepthCnt s;
     solveDepth := solveDepth s;
     request_count := v;
     _403_retry_count := _403_retry_count s;
     _in_403_retry := _in_403_retry s;
     last_request_time := last_request_time s;
     min_request_interval := min_request_interval s;
     max_concurrent_requests := max_concurrent_requests s;
     current_concurrent_requests := current_concurrent_requests s;
     enable_stealth := enable_stealth s;
     proxies := proxies s |}.

Definition set_403_retry_count (v : Z) (s : Session) : Session :=
  {| disableCloudflareV1 := disableCloudflareV1 s;
     disableCloudflareV2 := disableCloudflareV2 s;
     disableCloudflareV3 := disableCloudflareV3 s;
     disableTurnstile := disableTurnstile s;
     _solveDepthCnt := _solveDepthCnt s;
     solveDepth := solveDepth s;
     request_count := request_count s;
     _403_retry_count := v;
     _in_403_retry := _in_403_retry s;
     last_request_time := last_request_time s;
     min_request_interval := min_request_interval s;
     max_concurrent_requests := max_concurrent_requests s;
     current_concurrent_requests := current_concurrent_requests s;
     enable_stealth := enable_stealth s;
     proxies := proxies s |}.

Definition set_last_request_time (v : Q) (s : Session) : Session :=
  {| disableCloudflareV1 := disableCloudflareV1 s;
     disableCloudflareV2 := disableCloudflareV2 s;
     disableCloudflareV3 := disableCloudflareV3 s;
     disableTurnstile := disableTurnstile s;
     _solveDepthCnt := _solveDepthCnt s;
     solveDepth := solveDepth s;
     request_count := request_count s;
     _403_retry_count := _403_retry_count s;
     _in_403_retry := _in_403_retry s;
     last_request_time := v;
     min_request_interval := min_request_interval s;
     max_concurrent_requests := max_concurrent_requests s;
     current_concurrent_requests := current_concurrent_requests s;
     enable_stealth := enable_stealth s;
     proxies := proxies s |}.

Definition set_current_concurrent_requests (v : Z) (s : Session) : Session :=
  {| disableCloudflareV1 := disableCloudflareV1 s;
     disableCloudflareV2 := disableCloudflareV2 s;
     disableCloudflareV3 := disableCloudflareV3 s;
     disableTurnstile := disableTurnstile s;
     _solveDepthCnt := _solveDepthCnt s;
     solveDepth := solveDepth s;
     request_count := request_count s;
     _403_retry_count := _403_retry_count s;
     _in_403_retry := _in_403_retry s;
     last_request_time := last_request_time s;
     min_request_interval := min_request_interval s;
     max_concurrent_requests := max_concurrent_requests s;
     current_concurrent_requests := v;
     enable_stealth := enable_stealth s;
     proxies := proxies s |}.

Definition set_proxies (v : Proxies) (s : Session) : Session :=
  {| disableCloudflareV1 := disableCloudflareV1 s;
     disableCloudflareV2 := disableCloudflareV2 s;
     disableCloudflareV3 := disableCloudflareV3 s;
     disableTurnstile := disableTurnstile s;
     _solveDepthCnt := _solveDepthCnt s;
     solveDepth := solveDepth s;
     request_count := request_count s;
     _403_retry_count := _403_retry_count s;
     _in_403_retry := _in_403_retry s;
     last_request_time := last_request_time s;
     min_request_interval := min_request_interval s;
     max_concurrent_requests := max_concurrent_requests s;
     current_concurrent_requests := current_concurrent_requests s;
     enable_stealth := enable_stealth s;
     proxies := v |}.

(** The keyword arguments of the constructor that end in [Session];
    [None] is a keyword left out, which [kwargs.pop(name, default)]
    replaces by the default. *)
Record Config : Type := {
  cfg_disableCloudflareV1 : option bool;
  cfg_disableCloudflareV2 : option bool;
  cfg_disableCloudflareV3 : option bool;
  cfg_disableTurnstile : option bool;
  cfg_solveDepth : option Z;
  cfg_min_request_interval : option Q;
  cfg_max_concurrent_requests : option Z;
  cfg_enable_stealth : option bool
}.

Definition __init__ (kwargs : Config) : Session :=
  {| disableCloudflareV1 := default false (cfg_disableCloudflareV1 kwargs);
     disableCloudflareV2 := default false (cfg_disableCloudflareV2 kwargs);
     disableCloudflareV3 := default false (cfg_disableCloudflareV3 kwargs);
     disableTurnstile := default false (cfg_disableTurnstile kwargs);
     _solveDepthCnt := 0;
     solveDepth := default 3 (cfg_solveDepth kwargs);
     request_count := 0;
     _403_retry_count := 0;
     _in_403_retry := false;
     last_request_time := 0%Q;
     min_request_interval := default 1%Q (cfg_min_request_interval kwargs);
     max_concurrent_requests := default 1 (cfg_max_concurrent_requests kwargs);
     current_concurrent_requests := 0;
     enable_stealth := default true (cfg_enable_stealth kwargs);
     proxies := ∅ |}.

(** *** The calls [request] makes on its collaborators, in order.

    The trace is ghost state: no definition reads it. *)
Inductive Event : Type :=
| EvThrottle                                    (* request calls _apply_request_throttling *)
| EvSleep (seconds : Q)                         (* time.sleep(seconds) *)
| EvDispatch (in_flight : Z) (p : option Proxies) (* perform_request, with the in-flight counter then *)
| EvReportSuccess (p : Proxies)                 (* proxy_manager.report_success(kwargs['proxies']) *)
| EvReportFailure (p : Proxies)                 (* proxy_manager.report_failure(kwargs['proxies']) *)
| EvSolve (v : Variant) (depth : Z).            (* a solver entered, with the depth counter then *)

(** *** Challenge solvers.

    The solvers live in other modules.  A solver is taken as a strategy
    that reads the session and acts on it through the session's own
    methods only: it can look at the session's attributes, work outside the
    session (delay, interpreter, CAPTCHA provider), re-enter [request],
    fail through [simpleException] or with an exception of its own, and
    return a response. *)
Inductive Solver (Env : Type) : Type :=
| SolverReturn (response : Response)
| SolverRaise (e : Exn)
| SolverSimpleException (e : Exn)
| SolverRead (k : Session -> Solver Env)
| SolverExtern (io : Env -> string * Env) (k : string -> Solver Env)
| SolverRequest (method url : string) (kwargs : Kwargs)
                (k : Exn + Response -> Solver Env).
Arguments SolverReturn {Env} _.
Arguments SolverRaise {Env} _.
Arguments SolverSimpleException {Env} _.
Arguments SolverRead {Env} _.
Arguments SolverExtern {Env} _ _.
Arguments SolverRequest {Env} _ _ _ _.

(** *** The collaborators: clock, proxy manager, stealth policy, hooks,
    transport, classifiers and solvers.  [Env] is everything outside the
    session: the network, the clock, the proxy ledger. *)
Class Collaborators (Env : Type) : Type := {
  time_time : Env -> Q * Env;
  time_sleep : Q -> Env -> Env;
  proxy_manager_proxies : Env -> bool;   (* truth value of proxy_manager.proxies *)
  get_proxy : Env -> option Proxies * Env;
  report_success : Proxies -> Env -> Env;
  report_failure : Proxies -> Env -> Env;
  apply_stealth_techniques : string -> string -> Kwargs -> Env -> Kwargs * Env;
  requestPreHook :
    option (Session -> string -> string -> Kwargs ->
            Exn + (string * string * Kwargs));
  requestPostHook : option (Session -> Response -> Exn + Response);
  perform_request :
    Session -> string -> string -> Kwargs -> Env -> (Exn + Response) * Env;
  decodeBrotli : Response -> Response;
  is_Turnstile_Challenge : Response -> bool;
  is_V3_Challenge : Response -> bool;
  is_V2_Captcha_Challenge : Response -> bool;
  is_V2_Challenge : Response -> bool;
  is_Challenge_Request : Response -> bool;
  handle_Turnstile_Challenge : Response -> Kwargs -> Solver Env;
  handle_V3_Challenge : Response -> Kwargs -> Solver Env;
  handle_V2_Captcha_Challenge : Response -> Kwargs -> Solver Env;
  handle_V2_Challenge : Response -> Kwargs -> Solver Env;
  Challenge_Response : Response -> Kwargs -> Solver Env
}.

(** *** State, exceptions and trace *)

Inductive Outcome (A : Type) : Type :=
| Return (a : A)
| Raise (e : Exn)
| Diverge.
Arguments Return {A} _.
Arguments Raise {A} _.
Arguments Diverge {A}.

Record World (Env : Type) : Type := {
  session : Session;
  env : Env
}.
Arguments session {Env} _.
Arguments env {Env} _.

Record Run (Env A : Type) : Type := {
  outcome : Outcome A;
  final : World Env;
  events : list Event
}.
Arguments outcome {Env A} _.
Arguments final {Env A} _.
Arguments events {Env A} _.

Definition M (Env A : Type) : Type := World Env -> Run Env A.

Section Monad.
Context {Env : Type}.

Definition ret {A} (a : A) : M Env A :=
  fun w => {| outcome := Return a; final := w; events := [] |}.

Definition bind {A B} (m : M Env A) (f : A -> M Env B) : M Env B :=
  fun w =>
    let r := m w in
    match outcome r with
    | Return a =>
        let r' := f a (final r) in
        {| outcome := outcome r'; final := final r';
           events := events r ++ events r' |}
    | Raise e => {| outcome := Raise e; final := final r; events := events r |}
    | Diverge => {| outcome := Diverge; final := final r; events := events r |}
    end.

Definition raise {A} (e : Exn) : M Env A :=
  fun w => {| outcome := Raise e; final := w; events := [] |}.

Definition diverge {A} : M Env A :=
  fun w => {| outcome := Diverge; final := w; events := [] |}.

Definition emit (ev : Event) : M Env unit :=
  fun w => {| outcome := Return tt; final := w; events := [ev] |}.

Definition get_session : M Env Session :=
  fun w => {| outcome := Return (session w); final := w; events := [] |}.

Definition modify_session (f : Session -> Session) : M Env unit :=
  fun w => {| outcome := Return tt;
              final := {| session := f (session w); env := env w |};
              events := [] |}.

Definition extern {A} (io : Env -> A * Env) : M Env A :=
  fun w => {| outcome := Return (io (env w)).1;
              final := {| session := session w; env := (io (env w)).2 |};
              events := [] |}.

(** [try: body finally: cleanup]; a body that never returns never
    reaches the cleanup. *)
Definition try_finally {A} (body : M Env A) (cleanup : Session -> Session)
  : M Env A :=
  fun w =>
    let r := body w in
    match outcome r with
    | Diverge => r
    | _ => {| outcome := outcome r;
              final := {| session := cleanup (session (final r));
                          env := env (final r) |};
              events := events r |}
    end.

(** [try: body except (classes): handler; raise]. *)
Definition try_except_reraise {A} (body : M Env A) (caught : Exn -> bool)
           (handler : M Env unit) : M Env A :=
  fun w =>
    let r := body w in
    match outcome r with
    | Raise e =>
        if caught e then
          let r' := bind handler (fun _ => raise e) (final r) in
          {| outcome := outcome r'; final := final r';
             events := events r ++ events r' |}
        else r
    | _ => r
    end.
End Monad.

Global Instance M_ret {Env} : MRet (M Env) := fun A a => ret a.
Global Instance M_bind {Env} : MBind (M Env) := fun A B f m => bind m f.

(** *** The methods of the session *)

Section Orchestrator.
Context {Env : Type} `{!Collaborators Env}.

#[local] Abbreviation M := (M Env).

Definition Qltb (x y : Q) : bool := negb (Qle_bool y x).

(** [time.time()] and [time.sleep(seconds)]. *)
Definition now : M Q := extern time_time.

Definition sleep (seconds : Q) : M unit :=
  emit (EvSleep seconds);;
  extern (fun e => (tt, time_sleep seconds e)).

(** [simpleException]: reset the depth counter, then raise. *)
Definition simpleException {A} (exception : Exn) : M A :=
  modify_session (set_solveDepthCnt 0);;
  raise exception.

(** The [while] loop of the throttle, lines 486-489. *)
Fixpoint wait_for_slot (fuel : nat) : M unit :=
  match fuel with
  | O => diverge
  | S fuel' =>
      s ← get_session;
      if max_concurrent_requests s <=? current_concurrent_requests s
      then sleep (1 # 10);; wait_for_slot fuel'
      else mret tt
  end.

Definition _apply_request_throttling (fuel : nat) : M unit :=
  current_time ← now;
  s ← get_session;
  let time_since_last_request := (current_time - last_request_time s)%Q in
  (if Qltb time_since_last_request (min_request_interval s)
   then
     let sleep_time :=
       (min_request_interval s - time_since_last_request)%Q in
     sleep sleep_time
   else mret tt);;
  wait_for_slot fuel;;
  t ← now;
  modify_session (set_last_request_time t).

(** Lines 309-313: take a proxy from the manager, or remember the one
    the caller gave. *)
Definition resolve_proxies (kwargs : Kwargs) : M Kwargs :=
  s ← get_session;
  manager_has_proxies ← extern (fun e => (proxy_manager_proxies e, e));
  if negb (truthy (kw_proxies kwargs)) && manager_has_proxies then
    p ← extern get_proxy;
    mret (set_kw_proxies p kwargs)
  else
    match kw_proxies kwargs with
    | Some p =>
        if truthy (Some p) && python_ne p (proxies s)
        then modify_session (set_proxies p);; mret kwargs
        else mret kwargs
    | None => mret kwargs
    end.

(** Lines 315-317. *)
Definition stealth (method url : string) (kwargs : Kwargs) : M Kwargs :=
  s ← get_session;
  if enable_stealth s
  then extern (apply_stealth_techniques method url kwargs)
  else mret kwargs.

(** Lines 319-321. *)
Definition track (s : Session) : Session :=
  let s := set_request_count (request_count s + 1) s in
  set_current_concurrent_requests (current_concurrent_requests s + 1) s.

(** Lines 384-387, the [finally] clause. *)
Definition release (s : Session) : Session :=
  if 0 <? current_concurrent_requests s
  then set_current_concurrent_requests (current_concurrent_requests s - 1) s
  else s.

(** Lines 324-326. *)
Definition pre_hook (method url : string) (kwargs : Kwargs)
  : M (string * string * Kwargs) :=
  match requestPreHook with
  | Some hook =>
      s ← get_session;
      match hook s method url kwargs with
      | inl e => raise e
      | inr rewritten => mret rewritten
      end
  | None => mret (method, url, kwargs)
  end.

Definition is_connection_failure (e : Exn) : bool :=
  match e with
  | ProxyError | ConnectionError => true
  | _ => false
  end.

(** [if kwargs.get('proxies') and hasattr(self, 'proxy_manager'):
    self.proxy_manager.report_...(kwargs['proxies'])]; the constructor
    always sets [proxy_manager]. *)
Definition report_if_proxy (ev : Proxies -> Event)
           (report : Proxies -> Env -> Env) (kwargs : Kwargs) : M unit :=
  match kw_proxies kwargs with
  | Some p =>
      if truthy (Some p)
      then emit (ev p);; extern (fun e => (tt, report p e))
      else mret tt
  | None => mret tt
  end.

(** Lines 328-336. *)
Definition dispatch (method url : string) (kwargs : Kwargs) : M Response :=
  try_except_reraise
    (s ← get_session;
     emit (EvDispatch (current_concurrent_requests s) (kw_proxies kwargs));;
     result ← extern (perform_request s method url kwargs);
     response ← match result with
                | inl e => raise e
                | inr raw => mret (decodeBrotli raw)
                end;
     report_if_proxy EvReportSuccess report_success kwargs;;
     mret response)
    is_connection_failure
    (report_if_proxy EvReportFailure report_failure kwargs).

(** Lines 338-342. *)
Definition post_hook (response : Response) : M Response :=
  match requestPostHook with
  | Some hook =>
      s ← get_session;
      match hook s response with
      | inl e => raise e
      | inr new_resp => mret new_resp
      end
  | None => mret response
  end.

(** Lines 344-349. *)
Definition loop_protection : M unit :=
  s ← get_session;
  if solveDepth s <=? _solveDepthCnt s
  then simpleException (CloudflareLoopProtection (_solveDepthCnt s))
  else mret tt.

(** A solver at work; [rq] is the session's [request], which the
    solver may re-enter. *)
Fixpoint run_solver (rq : string -> string -> Kwargs -> M Response)
         (solver : Solver Env) : M Response :=
  match solver with
  | SolverReturn response => mret response
  | SolverRaise e => raise e
  | SolverSimpleException e => simpleException e
  | SolverRead k => fun w => run_solver rq (k (session w)) w
  | SolverExtern io k =>
      fun w =>
        let r := extern io w in
        match outcome r with
        | Return a =>
            let r' := run_solver rq (k a) (final r) in
            {| outcome := outcome r'; final := final r';
               events := events r ++ events r' |}
        | Raise e => {| outcome := Raise e; final := final r; events := events r |}
        | Diverge => {| outcome := Diverge; final := final r; events := events r |}
        end
  | SolverRequest method url kwargs k =>
      fun w =>
        let r := rq method url kwargs w in
        match outcome r with
        | Return response =>
            let r' := run_solver rq (k (inr response)) (final r) in
            {| outcome := outcome r'; final := final r';
               events := events r ++ events r' |}
        | Raise e =>
            let r' := run_solver rq (k (inl e)) (final r) in
            {| outcome := outcome r'; final := final r';
               events := events r ++ events r' |}
        | Diverge => {| outcome := Diverge; final := final r; events := events r |}
        end
  end.

(** [self._solveDepthCnt += 1; return solver(response, **kwargs)]. *)
Definition solve (rq : string -> string -> Kwargs -> M Response)
           (v : Variant) (solver : Solver Env) : M Response :=
  modify_session (fun s => set_solveDepthCnt (_solveDepthCnt s + 1) s);;
  s ← get_session;
  emit (EvSolve v (_solveDepthCnt s));;
  run_solver rq solver.

(** Lines 376-382. *)
Definition pass_through (response : Response) : M Response :=
  s ← get_session;
  (if negb (is_redirect response)
      && negb ((status_code response =? 429) || (status_code response =? 503))
   then
     modify_session (set_solveDepthCnt 0);;
     if (status_code response =? 200) && negb (_in_403_retry s)
     then modify_session (set_403_retry_count 0)
     else mret tt
   else mret tt);;
  mret response.

(** Lines 351-382. *)
Definition classify_and_solve (rq : string -> string -> Kwargs -> M Response)
           (response : Response) (kwargs : Kwargs) : M Response :=
  s ← get_session;
  if negb (disableTurnstile s) && is_Turnstile_Challenge response then
    solve rq Turnstile (handle_Turnstile_Challenge response kwargs)
  else if negb (disableCloudflareV3 s) && is_V3_Challenge response then
    solve rq V3_JS (handle_V3_Challenge response kwargs)
  else if negb (disableCloudflareV2 s) && is_V2_Captcha_Challenge response then
    solve rq V2_Captcha (handle_V2_Captcha_Challenge response kwargs)
  else if negb (disableCloudflareV2 s) && is_V2_Challenge response then
    solve rq V2_JS (handle_V2_Challenge response kwargs)
  else if negb (disableCloudflareV1 s) && is_Challenge_Request response then
    solve rq V1_Legacy (Challenge_Response response kwargs)
  else
    pass_through response.

(** Lines 300-317: throttle, proxy and stealth policy. *)
Definition prepare (fuel : nat) (method url : string) (kwargs : Kwargs)
  : M Kwargs :=
  let skip_throttle := kw_skip_throttle kwargs in
  let kwargs := pop_skip_throttle kwargs in
  s ← get_session;
  let is_nested := 0 <? current_concurrent_requests s in
  (if negb skip_throttle && negb is_nested
   then emit EvThrottle;; _apply_request_throttling fuel
   else mret tt);;
  kwargs ← resolve_proxies kwargs;
  stealth method url kwargs.

(** [track], as a step on the whole state. *)
Definition tracked (w : World Env) : World Env :=
  {| session := track (session w); env := env w |}.

Definition released (w : World Env) : World Env :=
  {| session := release (session w); env := env w |}.

(** Lines 324-342: hooks and dispatch, up to the response that is
    classified. *)
Definition obtain_response (method url : string) (kwargs : Kwargs)
  : M (Response * Kwargs) :=
  '(method, url, kwargs) ← pre_hook method url kwargs;
  response ← dispatch method url kwargs;
  response ← post_hook response;
  mret (response, kwargs).

(** The [try] block, lines 323-382. *)
Definition attempt (rq : string -> string -> Kwargs -> M Response)
           (method url : string) (kwargs : Kwargs) : M Response :=
  '(response, kwargs) ← obtain_response method url kwargs;
  loop_protection;;
  classify_and_solve rq response kwargs.

(** One call of [request]; [rq] is [request] itself, for the solvers. *)
Definition request_call (fuel : nat)
           (rq : string -> string -> Kwargs -> M Response)
           (method url : string) (kwargs : Kwargs) : M Response :=
  kwargs ← prepare fuel method url kwargs;
  modify_session track;;
  try_finally (attempt rq method url kwargs) release.

(** [CloudScraper.request].  [fuel] bounds the nesting of calls and the
    rounds of the throttle's loop. *)
Fixpoint request (fuel : nat) (method url : string) (kwargs : Kwargs)
  : M Response :=
  match fuel with
  | O => diverge
  | S fuel' => request_call fuel' (request fuel') method url kwargs
  end.

(** *** The classification as the specification words it: the enabled
    variants are tried in a fixed priority order and the first match
    wins. *)

Definition priority_order : list Variant :=
  [Turnstile; V3_JS; V2_Captcha; V2_JS; V1_Legacy].

Definition variant_enabled (s : Session) (v : Variant) : bool :=
  match v with
  | Turnstile => negb (disableTurnstile s)
  | V3_JS => negb (disableCloudflareV3 s)
  | V2_Captcha => negb (disableCloudflareV2 s)
  | V2_JS => negb (disableCloudflareV2 s)
  | V1_Legacy => negb (disableCloudflareV1 s)
  end.

Definition is_challenge (v : Variant) (response : Response) : bool :=
  match v with
  | Turnstile => is_Turnstile_Challenge response
  | V3_JS => is_V3_Challenge response
  | V2_Captcha => is_V2_Captcha_Challenge response
  | V2_JS => is_V2_Challenge response
  | V1_Legacy => is_Challenge_Request response
  end.

Definition solver_of (v : Variant) : Response -> Kwargs -> Solver Env :=
  match v with
  | Turnstile => handle_Turnstile_Challenge
  | V3_JS => handle_V3_Challenge
  | V2_Captcha => handle_V2_Captcha_Challenge
  | V2_JS => handle_V2_Challenge
  | V1_Legacy => Challenge_Response
  end.

Definition first_match (s : Session) (response : Response) : option Variant :=
  List.find (fun v => variant_enabled s v && is_challenge v response)
            priority_order.

(** The call up to the response that gets classified: everything before
    the loop protection. *)
Definition response_phase (fuel : nat) (method url : string) (kwargs : Kwargs)
  : M (Response * Kwargs) :=
  kwargs ← prepare fuel method url kwargs;
  modify_session track;;
  obtain_response method url kwargs.

(** The proxy a call goes through: [kwargs.get('proxies')] when it is
    true. *)
Definition proxy_in_use (kwargs : Kwargs) : option Proxies :=
  match kw_proxies kwargs with
  | Some p => if truthy (Some p) then Some p else None
  | None => None
  end.

Definition in_flight (w : World Env) : Z :=
  current_concurrent_requests (session w).

Definition depth (w : World Env) : Z := _solveDepthCnt (session w).

(** The sessions a caller can hold: a new one, and the one a completed
    call leaves behind. *)
Inductive reachable : World Env -> Prop :=
| reachable_init (kwargs : Config) (e : Env) :
    reachable {| session := __init__ kwargs; env := e |}
| reachable_request (fuel : nat) (method url : string) (kwargs : Kwargs)
                    (w : World Env) :
    reachable w ->
    outcome (request fuel method url kwargs w) <> Diverge ->
    reachable (final (request fuel method url kwargs w)).

End Orchestrator.

(** *** Reading a trace *)

Definition is_throttle (ev : Event) : bool :=
  match ev with EvThrottle => true | _ => false end.

Definition throttled (evs : list Event) : nat :=
  length (List.filter is_throttle evs).

(** The in-flight counter at each dispatch of a trace. *)
Definition in_flight_at_dispatch (evs : list Event) : list Z :=
  omap (fun ev => match ev with EvDispatch c _ => Some c | _ => None end) evs.

(** What a clock is expected to do, with [wall e] the time it is in the
    environment [e]: a reading is not before the time at which it is asked
    for and not after the time at which it is given, and a sleep lasts at
    least as long as asked.  Times are rationals; the rounding of Python's
    floats is left out. *)
Class ClockLaws (Env : Type) `{!Collaborators Env} : Type := {
  wall : Env -> Q;
  time_time_not_early : forall e, (wall e <= (time_time e).1)%Q;
  time_time_not_ahead : forall e, ((time_time e).1 <= wall (time_time e).2)%Q;
  time_sleep_lasts : forall d e, (wall e + d <= wall (time_sleep d e))%Q
}.

(** *** Vocabulary of the facts below *)

(** [keeps f]: the part [f] of the session is the same afterwards. *)
Definition keeps {X} (f : Session -> X) : relation Session :=
  fun s s' => f s' = f s.

Global Instance keeps_preorder {X} (f : Session -> X) : PreOrder (keeps f).
Proof. split; unfold keeps; [by intros s | intros s1 s2 s3 ? ?; congruence]. Qed.

(** The configuration of the session, and with it the in-flight counter. *)
Definition setup (s : Session) :=
  (disableCloudflareV1 s, disableCloudflareV2 s, disableCloudflareV3 s,
   disableTurnstile s, solveDepth s, _in_403_retry s,
   min_request_interval s, max_concurrent_requests s, enable_stealth s).

Definition stable (s : Session) := (setup s, current_concurrent_requests s).

Definition any_event (ev : Event) : Prop := True.

Definition no_event (ev : Event) : Prop := False.

Definition throttle_event (ev : Event) : Prop :=
  match ev with EvThrottle | EvSleep _ => True | _ => False end.

Definition sleep_event (ev : Event) : Prop :=
  match ev with EvSleep _ => True | _ => False end.

Definition transport_event (ev : Event) : Prop :=
  match ev with
  | EvDispatch _ _ | EvReportSuccess _ | EvReportFailure _ => True
  | _ => False
  end.

(** A dispatch made with more than [b] calls in flight; other events are
    of no concern. *)
Definition above (b : Z) (ev : Event) : Prop :=
  match ev with EvDispatch k _ => b < k | _ => True end.

Definition own_transport (c : Z) (ev : Event) : Prop :=
  match ev with
  | EvDispatch k _ => k = c
  | EvReportSuccess _ | EvReportFailure _ => True
  | _ => False
  end.

Section Vocabulary.
Context {Env : Type} `{!Collaborators Env}.
Implicit Types (w : World Env) (kwargs : Kwargs)
         (rq : string -> string -> Kwargs -> M Env Response).

(** A computation keeps a relation [R] between the session before and
    after, and emits only events of the class [E]. *)
Definition respects {A} (R : relation Session) (E : Event -> Prop)
           (m : M Env A) : Prop :=
  forall w, R (session w) (session (final (m w))) /\ Forall E (events (m w)).

(** What a run does to the session, as far as the counters of the
    throttle go: [n] throttles, every dispatch above [b]. *)
Definition effect (n : nat) (b : Z) w w' (evs : list Event) : Prop :=
  stable (session w') = stable (session w)
  /\ throttled evs = n
  /\ Forall (above b) evs
  /\ (n = 0%nat -> last_request_time (session w') = last_request_time (session w)).

Definition expected_throttles (skip : bool) w : nat :=
  if (in_flight w =? 0) && negb skip then 1%nat else 0%nat.

Definition call_ok {A} (skip : bool) w (r : Run Env A) : Prop :=
  outcome r <> Diverge ->
  effect (expected_throttles skip w) (in_flight w) w (final r) (events r).

Definition rq_ok rq : Prop :=
  forall method url kwargs w,
    0 <= in_flight w ->
    call_ok (kw_skip_throttle kwargs) w (rq method url kwargs w).




Definition throttle_gate kwargs w : bool :=
  negb (kw_skip_throttle kwargs) && negb (0 <? in_flight w).

(** After the response, [request] is the loop protection and the
    classification, then the [finally] clause. *)
Definition conclude rq response kwargs : M Env Response :=
  loop_protection;; classify_and_solve rq response kwargs.

Definition finished {A} (r1 : Run Env (Response * Kwargs)) (r2 : Run Env A)
  : Run Env A :=
  {| outcome := outcome r2;
     final := match outcome r2 with
              | Diverge => final r2
              | _ => released (final r2)
              end;
     events := events r1 ++ events r2 |}.

Definition depth_set (d : Z) w : World Env :=
  {| session := set_solveDepthCnt d (session w); env := env w |}.

Definition failure_report kwargs : list Event :=
  match proxy_in_use kwargs with
  | Some p => [EvReportFailure p]
  | None => []
  end.

Definition success_report kwargs : list Event :=
  match proxy_in_use kwargs with
  | Some p => [EvReportSuccess p]
  | None => []
  end.

Definition after_report (report : Proxies -> Env -> Env) kwargs (e : Env) : Env :=
  match proxy_in_use kwargs with
  | Some p => report p e
  | None => e
  end.

End Vocabulary.

End CloudScraper.

(* ===================================================================== *)
(** ** A scripted environment, to run the orchestrator on concrete calls  *)
(* ===================================================================== *)

Module Scripted.
Import CloudScraper.

(** The network answers from a script, one entry per dispatch (and with a
    plain 200 once the script is over); the clock moves only when someone
    sleeps; the proxy manager keeps a ledger of the reports it gets. *)
Record Env : Type := {
  clock : Q;
  script : list (Exn + Response);
  pool : list Proxies;
  ledger : list (bool * Proxies)
}.

Definition ok (body : string) : Response :=
  {| status_code := 200; is_redirect := false; content := body |}.

Definition challenge (body : string) : Response :=
  {| status_code := 403; is_redirect := false; content := body |}.

(** A solver that submits its answer through [request] and hands back
    what that call gives. *)
Definition resubmit (response : Response) (kwargs : Kwargs) : Solver Env :=
  SolverRequest "POST" "https://example.com/" kwargs
    (fun result =>
       match result with
       | inl e => SolverRaise e
       | inr r => SolverReturn r
       end).

Global Instance scripted : Collaborators Env := {|
  time_time e := (clock e, e);
  time_sleep d e :=
    {| clock := (clock e + d)%Q; script := script e;
       pool := pool e; ledger := ledger e |};
  proxy_manager_proxies e := match pool e with [] => false | _ => true end;
  get_proxy e := (head (pool e), e);
  report_success p e :=
    {| clock := clock e; script := script e;
       pool := pool e; ledger := ledger e ++ [(true, p)] |};
  report_failure p e :=
    {| clock := clock e; script := script e;
       pool := pool e; ledger := ledger e ++ [(false, p)] |};
  apply_stealth_techniques _ _ kwargs e := (kwargs, e);
  requestPreHook := None;
  requestPostHook := None;
  perform_request _ _ _ _ e :=
    match script e with
    | [] => (inr (ok "page"), e)
    | answer :: rest =>
        (answer, {| clock := clock e; script := rest;
                    pool := pool e; ledger := ledger e |})
    end;
  decodeBrotli r := r;
  is_Turnstile_Challenge r := String.eqb (content r) "turnstile";
  is_V3_Challenge r := String.eqb (content r) "v3";
  is_V2_Captcha_Challenge r := String.eqb (content r) "v2-captcha";
  is_V2_Challenge r := String.eqb (content r) "v2";
  is_Challenge_Request r := String.eqb (content r) "v1";
  handle_Turnstile_Challenge := resubmit;
  handle_V3_Challenge := resubmit;
  handle_V2_Captcha_Challenge := resubmit;
  handle_V2_Challenge := resubmit;
  Challenge_Response := resubmit
|}.

Definition no_config : Config :=
  {| cfg_disableCloudflareV1 := None; cfg_disableCloudflareV2 := None;
     cfg_disableCloudflareV3 := None; cfg_disableTurnstile := None;
     cfg_solveDepth := None; cfg_min_request_interval := None;
     cfg_max_concurrent_requests := None; cfg_enable_stealth := None |}.

Definition world (answers : list (Exn + Response)) (proxies : list Proxies)
  : World Env :=
  {| session := __init__ no_config;
     env := {| clock := 100%Q; script := answers; pool := proxies; ledger := [] |} |}.

Definition plain : Kwargs :=
  {| kw_skip_throttle := false; kw_proxies := None; kw_rest := [] |}.

Definition url : string := "https://example.com/".

Definition get (fuel : nat) (kwargs : Kwargs) : M Env Response :=
  request fuel "GET" url kwargs.

(** The scripted clock is exact. *)
Global Instance scripted_clock : ClockLaws Env := {|
  wall := clock;
  time_time_not_early e := Qle_refl (clock e);
  time_time_not_ahead e := Qle_refl (clock e);
  time_sleep_lasts d e := Qle_refl (clock e + d)
|}.

(** One proxy for every scheme. *)
Definition one_proxy : Proxies :=
  {[ "https"%string := "http://10.0.0.1:3128"%string ]}.

End Scripted.


(* ===================================================================== *)
(** ** Session health: [_should_refresh_session], [_refresh_session]      *)
(* ===================================================================== *)

Module SessionHealth.
Import CloudScraper.

(** The attributes of the session that the health checks read or write,
    beside [request_count]. *)
Record Health : Type := {
  session_start_time : Q;
  last_403_time : Q;
  session_refresh_interval : Q;
  cookies : gmap (string * string * string) string
}.

Definition set_session_start_time (t : Q) (h : Health) : Health :=
  {| session_start_time := t;
     last_403_time := last_403_time h;
     session_refresh_interval := session_refresh_interval h;
     cookies := cookies h |}.

Definition set_cookies (j : gmap (string * string * string) string) (h : Health)
  : Health :=
  {| session_start_time := session_start_time h;
     last_403_time := last_403_time h;
     session_refresh_interval := session_refresh_interval h;
     cookies := j |}.

(** What [_refresh_session] calls outside the session: the user agent's
    [loadUserAgent] (which may raise), [urlparse] for the scheme and host of
    the URL (which may raise), and the cookies the transport stores from the
    response it gets. *)
Class Identity (Env : Type) : Type := {
  loadUserAgent : Env -> option Exn * Env;
  base_url : string -> Exn + string;
  extract_cookies :
    Response -> gmap (string * string * string) string ->
    gmap (string * string * string) string
}.

(** Lines 396-407, at the time [current_time]. *)
Definition should_refresh_at (current_time : Q) (h : Health) : bool :=
  let session_age := (current_time - session_start_time h)%Q in
  if Qltb (session_refresh_interval h) session_age then true
  else if Qltb 0 (last_403_time h)
          && Qltb (current_time - last_403_time h) 60 then true
  else false.

Definition _should_refresh_session {Env} `{!Collaborators Env}
           (h : Health) (e : Env) : bool * Env :=
  let current_time := time_time e in
  (should_refresh_at current_time.1 h, current_time.2).

(** The keywords of the request of line 434: [timeout=30]. *)
Definition baseline_kwargs : Kwargs :=
  {| kw_skip_throttle := false; kw_proxies := None;
     kw_rest := [("timeout", "30")]%string |}.

Definition refresh_statuses : list Z := [200; 301; 302; 304].

Record Refreshed (Env : Type) : Type := {
  success : bool;
  session_after : Session;
  health_after : Health;
  env_after : Env
}.
Arguments success {Env} _.
Arguments session_after {Env} _.
Arguments health_after {Env} _.
Arguments env_after {Env} _.

(** Lines 409-452.  The whole body is in a [try]; every exception ends in
    [return False].  The request goes through [Session.request], the
    transport, not through [CloudScraper.request]. *)
Definition _refresh_session {Env} `{!Collaborators Env} `{!Identity Env}
           (url : string) (s : Session) (h : Health) (e : Env) : Refreshed Env :=
  let h := set_cookies (CookieJar._clear_cloudflare_cookies (cookies h)) h in
  let started := time_time e in
  let h := set_session_start_time started.1 h in
  let s := set_request_count 0 s in
  let rotated := loadUserAgent started.2 in
  match rotated.1 with
  | Some _ =>
      {| success := false; session_after := s; health_after := h;
         env_after := rotated.2 |}
  | None =>
      match base_url url with
      | inl _ =>
          {| success := false; session_after := s; health_after := h;
             env_after := rotated.2 |}
      | inr base =>
          let answer := perform_request s "GET" base baseline_kwargs rotated.2 in
          match answer.1 with
          | inl _ =>
              {| success := false; session_after := s; health_after := h;
                 env_after := answer.2 |}
          | inr test_response =>
              {| success :=
                   bool_decide (status_code test_response ∈ refresh_statuses);
                 session_after := s;
                 health_after :=
                   set_cookies (extract_cookies test_response (cookies h)) h;
                 env_after := answer.2 |}
          end
      end
  end.

End SessionHealth.

(* ===================================================================== *)
(** ** The tokens of a session: the end of [get_tokens],                  *)
(**    [get_cookie_string]                                                *)
(* ===================================================================== *)

Module Tokens.
Import CookieJar.

(** [d.startswith('.')] and [d in s] on strings. *)
Definition startswith_dot (d : string) : bool := String.prefix "." d.

Definition contains (needle hay : string) : bool :=
  match String.index 0 needle hay with
  | Some _ => true
  | None => false
  end.

(** The test of the first loop: [d.startswith('.') and d in (f'.{domain}')].
    The parentheses hold a string, not a tuple: [in] looks for [d] inside
    the text of ['.' + domain]. *)
Definition dotted_match (domain d : string) : bool :=
  startswith_dot d && contains d ("." ++ domain).

(** Lines 586-602: the two [for ... else] loops. *)
Definition select_cookie_domain (domains : list string) (domain : string)
  : Exn + string :=
  match List.find (dotted_match domain) domains with
  | Some d => inr d
  | None =>
      match List.find (fun d => String.eqb d domain) domains with
      | Some d => inr d
      | None => inl (OtherError "CloudflareIUAMError")
      end
  end.

(** The values of the cookies of a name in a domain, on whatever path. *)
Definition cookie_values (name domain : string) (j : jar) : list string :=
  snd <$> List.filter
            (fun kv : string * string * string * string =>
               String.eqb (name_of kv.1) name && String.eqb (domain_of kv.1) domain)
            (map_to_list j).

(** [RequestsCookieJar.get(name, default, domain=domain)]: the value of the
    one cookie of that name in the domain; [default] when there is none or
    its value is empty; [CookieConflictError] when there are several. *)
Definition get (name default domain : string) (j : jar) : Exn + string :=
  match cookie_values name domain j with
  | [] => inr default
  | [v] => inr (if String.eqb v EmptyString then default else v)
  | _ :: _ :: _ => inl (OtherError "CookieConflictError")
  end.

Definition token_names : list string :=
  ["cf_clearance"; "cf_chl_2"; "cf_chl_prog"; "cf_chl_rc_ni"; "cf_turnstile"]%string.

(** Lines 605-609; the dictionary keeps the order of insertion. *)
Fixpoint collect (names : list string) (cookie_domain : string) (j : jar)
  : Exn + list (string * string) :=
  match names with
  | [] => inr []
  | cookie_name :: rest =>
      match get cookie_name EmptyString cookie_domain j with
      | inl e => inl e
      | inr cookie_value =>
          match collect rest cookie_domain j with
          | inl e => inl e
          | inr cf_cookies =>
              inr (if String.eqb cookie_value EmptyString
                   then cf_cookies
                   else (cookie_name, cookie_value) :: cf_cookies)
          end
      end
  end.

(** Lines 583-614: from the jar and the host of the response's URL to the
    tokens and the user agent. *)
Definition tokens_from (j : jar) (domain user_agent : string)
  : Exn + (list (string * string) * string) :=
  match select_cookie_domain (list_domains j) domain with
  | inl e => inl e
  | inr cookie_domain =>
      match collect token_names cookie_domain j with
      | inl e => inl e
      | inr cf_cookies => inr (cf_cookies, user_agent)
      end
  end.

(** Line 633: ['; '.join('='.join(pair) for pair in tokens.items())]. *)
Definition cookie_string (tokens : list (string * string)) : string :=
  String.concat "; " ((fun pair => String.concat "=" [pair.1; pair.2]) <$> tokens).

End Tokens.

(* ===================================================================== *)
(** ** The factories: [create_scraper], the keywords of [get_tokens]      *)
(* ===================================================================== *)

Module Factory.
Import CipherSuiteAdapter.

Definition is_none (v : PyVal) : bool :=
  match v with PyNone => true | _ => false end.

Definition copied_attributes : list string :=
  ["auth"; "cert"; "cookies"; "headers"; "hooks"; "params"; "proxies"; "data"]%string.

(** One round of the loop of lines 523-526; [sess] and [scraper] are the
    attributes of the two objects. *)
Definition copy_attribute (sess : gmap string PyVal) (scraper : gmap string PyVal)
           (attr : string) : gmap string PyVal :=
  match sess !! attr with
  | Some val => if is_none val then scraper else <[attr := val]> scraper
  | None => scraper
  end.

(** Lines 520-528, after the scraper is constructed; [None] is a [sess]
    that is false. *)
Definition create_scraper (scraper : gmap string PyVal)
           (sess : option (gmap string PyVal)) : gmap string PyVal :=
  match sess with
  | Some attributes => foldl (copy_attribute attributes) scraper copied_attributes
  | None => scraper
  end.

Definition constructor_fields : list string :=
  ["allow_brotli"; "browser"; "debug"; "delay"; "doubleDown"; "captcha";
   "interpreter"; "source_address"; "requestPreHook"; "requestPostHook";
   "rotating_proxies"; "proxy_options"; "enable_stealth"; "stealth_options";
   "session_refresh_interval"; "auto_refresh_on_403"; "max_403_retries";
   "disableCloudflareV3"; "disableTurnstile"]%string.

(** One round of the comprehension of lines 551-573:
    [field: kwargs.pop(field, None)] when [field in kwargs].  The pair is
    the dictionary built so far and what is left of [kwargs]. *)
Definition pop_field (acc : gmap string PyVal * gmap string PyVal) (field : string)
  : gmap string PyVal * gmap string PyVal :=
  match acc.2 !! field with
  | Some v => (<[field := v]> acc.1, delete field acc.2)
  | None => acc
  end.

(** The keywords [get_tokens] gives to the constructor, and the keywords it
    keeps for [scraper.get]. *)
Definition split_kwargs (kwargs : gmap string PyVal)
  : gmap string PyVal * gmap string PyVal :=
  foldl pop_field (∅, kwargs) constructor_fields.

End Factory.

(* ===================================================================== *)
(** ** More vocabulary for the facts                                      *)
(* ===================================================================== *)

Module Bounds.
Import CloudScraper.




(** A sleep of a positive time. *)
Definition positive_sleep (ev : Event) : Prop :=
  match ev with EvSleep d => (0 < d)%Q | _ => True end.

(** The depths at which the solvers of a trace were entered. *)
Definition solver_depths (evs : list Event) : list Z :=
  omap (fun ev => match ev with EvSolve _ d => Some d | _ => None end) evs.

End Bounds.

(* ===================================================================== *)
(** ** More scripted collaborators                                        *)
(* ===================================================================== *)

Module Hooked.
Import CloudScraper Scripted.

(** The scripted collaborators, with the two hooks of the caller. *)
Definition with_hooks
           (pre : option (Session -> string -> string -> Kwargs ->
                          Exn + (string * string * Kwargs)))
           (post : option (Session -> Response -> Exn + Response))
  : Collaborators Env := {|
  time_time := time_time (Collaborators := scripted);
  time_sleep := time_sleep (Collaborators := scripted);
  proxy_manager_proxies := proxy_manager_proxies (Collaborators := scripted);
  get_proxy := get_proxy (Collaborators := scripted);
  report_success := report_success (Collaborators := scripted);
  report_failure := report_failure (Collaborators := scripted);
  apply_stealth_techniques := apply_stealth_techniques (Collaborators := scripted);
  requestPreHook := pre;
  requestPostHook := post;
  perform_request := perform_request (Collaborators := scripted);
  decodeBrotli := decodeBrotli (Collaborators := scripted);
  is_Turnstile_Challenge := is_Turnstile_Challenge (Collaborators := scripted);
  is_V3_Challenge := is_V3_Challenge (Collaborators := scripted);
  is_V2_Captcha_Challenge := is_V2_Captcha_Challenge (Collaborators := scripted);
  is_V2_Challenge := is_V2_Challenge (Collaborators := scripted);
  is_Challenge_Request := is_Challenge_Request (Collaborators := scripted);
  handle_Turnstile_Challenge := resubmit;
  handle_V3_Challenge := resubmit;
  handle_V2_Captcha_Challenge := resubmit;
  handle_V2_Challenge := resubmit;
  Challenge_Response := resubmit
|}.

(** A pre-hook that refuses every call. *)
Definition refusing : Collaborators Env :=
  with_hooks (Some (fun _ _ _ _ => inl (OtherError "HookError"))) None.

(** A post-hook that answers with a page of its own. *)
Definition stamp (s : Session) (response : Response) : Exn + Response :=
  inr (ok "stamped").

Definition stamping : Collaborators Env := with_hooks None (Some stamp).

(** A session that allows no request in flight. *)
Definition no_room : World Env :=
  {| session :=
       __init__
         {| cfg_disableCloudflareV1 := None; cfg_disableCloudflareV2 := None;
            cfg_disableCloudflareV3 := None; cfg_disableTurnstile := None;
            cfg_solveDepth := None; cfg_min_request_interval := None;
            cfg_max_concurrent_requests := Some 0; cfg_enable_stealth := None |};
     env := {| clock := 100%Q; script := []; pool := []; ledger := [] |} |}.

Definition too_many : Response :=
  {| status_code := 429; is_redirect := false; content := "slow down" |}.

(** The caller names its proxies. *)
Definition through_proxy : Kwargs :=
  {| kw_skip_throttle := false; kw_proxies := Some one_proxy; kw_rest := [] |}.

(** A session made with stealth off. *)
Definition plain_world : World Env :=
  {| session :=
       __init__
         {| cfg_disableCloudflareV1 := None; cfg_disableCloudflareV2 := None;
            cfg_disableCloudflareV3 := None; cfg_disableTurnstile := None;
            cfg_solveDepth := None; cfg_min_request_interval := None;
            cfg_max_concurrent_requests := None; cfg_enable_stealth := Some false |};
     env := {| clock := 100%Q; script := []; pool := []; ledger := [] |} |}.

End Hooked.

Module ScriptedHealth.
Import CloudScraper CookieJar SessionHealth Scripted.

(** The user agent loads, the URL is its own base, and the answer of the
    test request sets a fresh [cf_clearance] for [example.com]. *)
Global Instance scripted_identity : Identity Env := {|
  loadUserAgent e := (None, e);
  base_url u := inr u;
  extract_cookies _ j :=
    <[ ("example.com", "/", "cf_clearance")%string := "fresh"%string ]> j
|}.

(** A session started at time 0, with a 403 at time 90 and the default
    interval of an hour. *)
Definition after_403 : Health :=
  {| session_start_time := 0; last_403_time := 90;
     session_refresh_interval := 3600;
     cookies := {[ ("example.com", "/", "cf_clearance")%string := "old"%string ]} |}.

(** A session started at time 0 that never saw a 403. *)
Definition aged : Health :=
  {| session_start_time := 0; last_403_time := 0;
     session_refresh_interval := 60;
     cookies := ∅ |}.

End ScriptedHealth.

(* ===================================================================== *)
(** ** Facts                                                              *)
(* ===================================================================== *)

Import CloudScraper.

(** *** Running the monad *)

Section Running.
Context {Env : Type}.
Implicit Types (w : World Env).

Lemma run_bind {A B} (m : M Env A) (k : A -> M Env B) w :
  (m ≫= k) w =
  match outcome (m w) with
  | Return a =>
      {| outcome := outcome (k a (final (m w)));
         final := final (k a (final (m w)));
         events := events (m w) ++ events (k a (final (m w))) |}
  | Raise e => {| outcome := Raise e; final := final (m w); events := events (m w) |}
  | Diverge => {| outcome := Diverge; final := final (m w); events := events (m w) |}
  end.
Proof. reflexivity. Qed.

Lemma run_ret {A} (a : A) w :
  (mret a : M Env A) w = {| outcome := Return a; final := w; events := [] |}.
Proof. reflexivity. Qed.

Lemma try_finally_outcome {A} (body : M Env A) cleanup w :
  outcome (try_finally body cleanup w) = outcome (body w).
Proof. unfold try_finally. by destruct (outcome (body w)) eqn:Ho. Qed.

Lemma try_finally_events {A} (body : M Env A) cleanup w :
  events (try_finally body cleanup w) = events (body w).
Proof. unfold try_finally. by destruct (outcome (body w)). Qed.

Lemma try_finally_final {A} (body : M Env A) cleanup w :
  outcome (body w) <> Diverge ->
  final (try_finally body cleanup w)
  = {| session := cleanup (session (final (body w)));
       env := env (final (body w)) |}.
Proof. unfold try_finally. by destruct (outcome (body w)). Qed.

Section Respects.
Context (R : relation Session) `{!PreOrder R} (E : Event -> Prop).

Lemma respects_ret {A} (a : A) : respects R E (mret a : M Env A).
Proof using All. intros w; split; [reflexivity | constructor]. Qed.

Lemma respects_raise {A} e : respects R E (raise e : M Env A).
Proof using All. intros w; split; [reflexivity | constructor]. Qed.

Lemma respects_diverge {A} : respects R E (diverge : M Env A).
Proof using All. intros w; split; [reflexivity | constructor]. Qed.

Lemma respects_get : respects R E (get_session : M Env Session).
Proof using All. intros w; split; [reflexivity | constructor]. Qed.

Lemma respects_extern {A} (io : Env -> A * Env) : respects R E (extern io).
Proof using All. intros w; split; [reflexivity | constructor]. Qed.

Lemma respects_emit ev : E ev -> respects R E (emit ev : M Env unit).
Proof using All. intros H w; split; [reflexivity | by repeat constructor]. Qed.

Lemma respects_modify f :
  (forall s, R s (f s)) -> respects R E (modify_session f : M Env unit).
Proof using All. intros H w; split; [apply H | constructor]. Qed.

Lemma respects_bind {A B} (m : M Env A) (k : A -> M Env B) :
  respects R E m -> (forall a, respects R E (k a)) -> respects R E (m ≫= k).
Proof using All.
  intros Hm Hk w. rewrite run_bind. destruct (Hm w) as [HR HE].
  destruct (outcome (m w)) as [a| |]; simpl; auto.
  destruct (Hk a (final (m w))) as [HR' HE'].
  split; [by etrans | by apply Forall_app].
Qed.

Lemma respects_try_except {A} (m : M Env A) caught handler :
  respects R E m -> respects R E handler ->
  respects R E (try_except_reraise m caught handler).
Proof using All.
  intros Hm Hh w. unfold try_except_reraise.
  destruct (Hm w) as [HR HE].
  destruct (outcome (m w)) as [a|e|]; auto.
  destruct (caught e); auto.
  destruct (respects_bind (B:=A) handler (fun _ => raise e) Hh
              (fun _ => respects_raise e) (final (m w))) as [HR' HE'].
  simpl. split; [by etrans | by apply Forall_app].
Qed.
End Respects.

Lemma respects_weaken {A} (R R' : relation Session) (E E' : Event -> Prop)
      (m : M Env A) :
  (forall s s', R s s' -> R' s s') -> (forall ev, E ev -> E' ev) ->
  respects R E m -> respects R' E' m.
Proof.
  intros HR HE Hm w. destruct (Hm w) as [H1 H2]. split; [auto|].
  eapply Forall_impl; eauto.
Qed.
End Running.

(** *** What each step of [request] leaves alone *)

Create HintDb frames.

Ltac respects_step :=
  lazymatch goal with
  | |- PreOrder _ => exact _
  | |- forall _, _ => intro
  | |- respects _ _ (if ?b then _ else _) => destruct b
  | |- respects _ _ (match ?x with _ => _ end) => destruct x
  | |- respects _ _ _ =>
      first
        [ solve [auto 2 with frames]
        | apply respects_ret | apply respects_raise | apply respects_diverge
        | apply respects_get | apply respects_extern
        | apply respects_emit; [exact _ | exact I]
        | apply respects_modify; [exact _ | intros; first [reflexivity | solve [unfold keeps; auto]]]
        | apply respects_bind
        | apply respects_try_except
        | solve [auto with frames] ]
  end.

Ltac respects_auto := repeat respects_step.

Section Steps.
Context {Env : Type} `{!Collaborators Env}.
Implicit Types (w : World Env) (kwargs : Kwargs).

Lemma sleep_respects {X} (f : Session -> X) d :
  respects (keeps f) sleep_event (sleep d : M Env unit).
Proof. unfold sleep. respects_auto. Qed.

Lemma wait_for_slot_respects {X} (f : Session -> X) fuel :
  respects (keeps f) sleep_event (wait_for_slot fuel : M Env unit).
Proof.
  pose proof (sleep_respects f).
  induction fuel as [|fuel IH]; simpl; respects_auto.
Qed.

Lemma throttling_respects {X} (f : Session -> X) fuel :
  (forall t s, f (set_last_request_time t s) = f s) ->
  respects (keeps f) sleep_event (_apply_request_throttling fuel : M Env unit).
Proof.
  intros Hf.
  pose proof (sleep_respects f).
  pose proof (wait_for_slot_respects f fuel).
  unfold _apply_request_throttling, now. respects_auto.
Qed.

Lemma resolve_proxies_respects {X} (f : Session -> X) kwargs :
  (forall p s, f (set_proxies p s) = f s) ->
  respects (keeps f) no_event (resolve_proxies kwargs : M Env Kwargs).
Proof. intros Hf. unfold resolve_proxies. respects_auto. Qed.

Lemma stealth_respects {X} (f : Session -> X) method url kwargs :
  respects (keeps f) no_event (stealth method url kwargs : M Env Kwargs).
Proof. unfold stealth. respects_auto. Qed.

Lemma pre_hook_respects {X} (f : Session -> X) method url kwargs :
  respects (keeps f) no_event (pre_hook method url kwargs : M Env _).
Proof. unfold pre_hook. respects_auto. Qed.

Lemma post_hook_respects {X} (f : Session -> X) response :
  respects (keeps f) no_event (post_hook response : M Env _).
Proof. unfold post_hook. respects_auto. Qed.

Lemma report_respects {X} (f : Session -> X) ev report kwargs :
  (forall p, transport_event (ev p)) ->
  respects (keeps f) transport_event (report_if_proxy ev report kwargs : M Env _).
Proof.
  intros Hev. unfold report_if_proxy. respects_auto.
  apply respects_emit; [exact _ | apply Hev].
Qed.

Lemma dispatch_respects {X} (f : Session -> X) method url kwargs :
  respects (keeps f) transport_event (dispatch method url kwargs : M Env _).
Proof.
  pose proof (report_respects f EvReportSuccess report_success kwargs (fun _ => I)).
  pose proof (report_respects f EvReportFailure report_failure kwargs (fun _ => I)).
  unfold dispatch. respects_auto.
Qed.

Lemma loop_protection_respects {X} (f : Session -> X) :
  (forall v s, f (set_solveDepthCnt v s) = f s) ->
  respects (keeps f) no_event (loop_protection : M Env unit).
Proof. intros Hf. unfold loop_protection, simpleException. respects_auto. Qed.

Lemma pass_through_respects {X} (f : Session -> X) response :
  (forall v s, f (set_solveDepthCnt v s) = f s) ->
  (forall v s, f (set_403_retry_count v s) = f s) ->
  respects (keeps f) no_event (pass_through response : M Env _).
Proof. intros Hf Hg. unfold pass_through. respects_auto. Qed.
End Steps.

Ltac run_steps :=
  unfold mbind, M_bind, mret, M_ret, bind, ret, get_session, emit, extern,
    raise, diverge, modify_session;
  cbn -[truthy python_ne Z.add Z.sub Z.leb Z.ltb Z.eqb Qltb Qminus].

Section DispatchFacts.
Context {Env : Type} `{!Collaborators Env}.
Implicit Types (w : World Env) (kwargs : Kwargs).

(** [dispatch], run: one call of the transport, then the report that
    fits its result. *)
Lemma dispatch_run method url kwargs w :
  dispatch method url kwargs w =
  let answer := perform_request (session w) method url kwargs (env w) in
  let asked := EvDispatch (current_concurrent_requests (session w)) (kw_proxies kwargs) in
  match answer.1 with
  | inr raw =>
      {| outcome := Return (decodeBrotli raw);
         final := {| session := session w;
                     env := match proxy_in_use kwargs with
                            | Some p => report_success p answer.2
                            | None => answer.2
                            end |};
         events := asked :: match proxy_in_use kwargs with
                            | Some p => [EvReportSuccess p]
                            | None => []
                            end |}
  | inl e =>
      if is_connection_failure e then
        {| outcome := Raise e;
           final := {| session := session w;
                       env := match proxy_in_use kwargs with
                              | Some p => report_failure p answer.2
                              | None => answer.2
                              end |};
           events := asked :: match proxy_in_use kwargs with
                              | Some p => [EvReportFailure p]
                              | None => []
                              end |}
      else
        {| outcome := Raise e;
           final := {| session := session w; env := answer.2 |};
           events := [asked] |}
  end.
Proof.
  unfold dispatch, try_except_reraise, report_if_proxy, proxy_in_use.
  run_steps.
  destruct (perform_request (session w) method url kwargs (env w)) as [[e|raw] e'].
  - run_steps. destruct (is_connection_failure e); [|reflexivity].
    destruct (kw_proxies kwargs) as [p|]; [|reflexivity].
    destruct (truthy (Some p)); reflexivity.
  - run_steps.
    destruct (kw_proxies kwargs) as [p|]; [|reflexivity].
    destruct (truthy (Some p)); reflexivity.
Qed.
End DispatchFacts.

(** *** The in-flight counter across nested calls *)

Section Nesting.
Context {Env : Type} `{!Collaborators Env}.
Implicit Types (w : World Env) (kwargs : Kwargs)
         (rq : string -> string -> Kwargs -> M Env Response).

Lemma throttled_app evs1 evs2 :
  throttled (evs1 ++ evs2) = (throttled evs1 + throttled evs2)%nat.
Proof. unfold throttled. by rewrite List.filter_app, length_app. Qed.

Lemma effect_refl b w : effect 0 b w w [].
Proof. repeat split; constructor. Qed.

Lemma effect_trans n1 n2 b w w1 w2 evs1 evs2 :
  effect n1 b w w1 evs1 -> effect n2 b w1 w2 evs2 ->
  effect (n1 + n2) b w w2 (evs1 ++ evs2).
Proof.
  intros (Hs1 & Ht1 & Hd1 & Hl1) (Hs2 & Ht2 & Hd2 & Hl2).
  repeat split.
  - congruence.
  - rewrite throttled_app. congruence.
  - by apply Forall_app.
  - intros Hn. rewrite Hl2, Hl1 by lia. reflexivity.
Qed.

Lemma effect_weaken n b b' w w' evs :
  b' <= b -> effect n b w w' evs -> effect n b' w w' evs.
Proof.
  intros Hb (Hs & Ht & Hd & Hl). repeat split; auto.
  eapply Forall_impl; [exact Hd|]. intros [] ?; simpl in *; auto; lia.
Qed.

Lemma effect_in_flight n b w w' evs :
  effect n b w w' evs -> in_flight w' = in_flight w.
Proof. intros (Hs & _). unfold in_flight, stable in *. congruence. Qed.

(** A step that keeps the counters and emits neither a throttle nor a
    dispatch at or below [b]. *)
Lemma effect_of_respects {A} (E : Event -> Prop) (m : M Env A) b w :
  respects (keeps (fun s => (stable s, last_request_time s))) E m ->
  (forall ev, E ev -> above b ev /\ is_throttle ev = false) ->
  effect 0 b w (final (m w)) (events (m w)).
Proof.
  intros Hm HE. destruct (Hm w) as [HR Hev]. unfold keeps in HR.
  repeat split.
  - congruence.
  - unfold throttled. induction Hev as [|ev evs Hev _ IH]; [done|].
    simpl. destruct (HE ev Hev) as [_ ->]. exact IH.
  - eapply Forall_impl; [exact Hev|]. intros ev Hx. by apply HE.
  - intros _. congruence.
Qed.

Lemma pre_hook_run method url kwargs w :
  exists o, pre_hook method url kwargs w
            = {| outcome := o; final := w; events := [] |}
            /\ o <> Diverge.
Proof.
  unfold pre_hook. destruct requestPreHook as [hook|]; run_steps.
  - destruct (hook _ _ _ _); eexists; split; reflexivity || done.
  - eexists; split; reflexivity || done.
Qed.

Lemma post_hook_run response w :
  exists o, post_hook response w
            = {| outcome := o; final := w; events := [] |}
            /\ o <> Diverge.
Proof.
  unfold post_hook. destruct requestPostHook as [hook|]; run_steps.
  - destruct (hook _ _); eexists; split; reflexivity || done.
  - eexists; split; reflexivity || done.
Qed.

(** Hooks and dispatch leave the session as it is; the one dispatch sees
    the in-flight counter of the moment. *)
Lemma obtain_response_spec method url kwargs w :
  let r := obtain_response method url kwargs w in
  session (final r) = session w
  /\ Forall (own_transport (in_flight w)) (events r)
  /\ outcome r <> Diverge.
Proof.
  unfold obtain_response. rewrite run_bind.
  destruct (pre_hook_run method url kwargs w) as (o & -> & Ho).
  cbn [outcome final events].
  destruct o as [[[method' url'] kwargs']|e|]; cbn [outcome final events];
    [| repeat split; [constructor | done] | done].
  rewrite run_bind, dispatch_run. cbn zeta.
  destruct (perform_request _ _ _ _ _) as [[e|raw] e']; cbn [fst snd].
  - destruct (is_connection_failure e); cbn [outcome final events session];
      (repeat split; [|done]); destruct (proxy_in_use kwargs');
      repeat constructor.
  - cbn [outcome final events]. rewrite run_bind.
    match goal with |- context [post_hook ?r ?w'] =>
      destruct (post_hook_run r w') as (o & -> & Ho') end.
    destruct o; cbn [outcome final events session]; try done;
      (repeat split; [| try done]); destruct (proxy_in_use kwargs');
      repeat constructor.
Qed.
End Nesting.

Section Balance.
Context {Env : Type} `{!Collaborators Env}.
Implicit Types (w : World Env) (kwargs : Kwargs)
         (rq : string -> string -> Kwargs -> M Env Response).

Lemma effect_bind {A B} (m : M Env A) (k : A -> M Env B) n b w :
  effect n b w (final (m w)) (events (m w)) ->
  (forall a, outcome (m w) = Return a ->
             outcome (k a (final (m w))) <> Diverge ->
             effect 0 b (final (m w)) (final (k a (final (m w))))
                    (events (k a (final (m w))))) ->
  outcome ((m ≫= k) w) <> Diverge ->
  effect n b w (final ((m ≫= k) w)) (events ((m ≫= k) w)).
Proof.
  intros Hm Hk. rewrite run_bind.
  destruct (outcome (m w)) as [a| |]; cbn [outcome final events]; auto.
  intros Hnd. replace n with (n + 0)%nat by lia.
  eapply effect_trans; eauto.
Qed.

Lemma effect_bind_after {A B} (m : M Env A) (k : A -> M Env B) n b w :
  effect 0 b w (final (m w)) (events (m w)) ->
  (exists a, outcome (m w) = Return a) ->
  (forall a, outcome (m w) = Return a ->
             outcome (k a (final (m w))) <> Diverge ->
             effect n b (final (m w)) (final (k a (final (m w))))
                    (events (k a (final (m w))))) ->
  outcome ((m ≫= k) w) <> Diverge ->
  effect n b w (final ((m ≫= k) w)) (events ((m ≫= k) w)).
Proof.
  intros Hm [a Ha] Hk. rewrite run_bind, Ha. cbn [outcome final events].
  intros Hnd. change n with (0 + n)%nat.
  eapply effect_trans; eauto.
Qed.

Lemma quiet_no_event b ev : no_event ev -> above b ev /\ is_throttle ev = false.
Proof. intros []. Qed.

Lemma quiet_sleep_event b ev :
  sleep_event ev -> above b ev /\ is_throttle ev = false.
Proof. by destruct ev. Qed.

Lemma run_solver_ok rq solver :
  rq_ok rq -> forall w, 0 < in_flight w ->
  outcome (run_solver rq solver w) <> Diverge ->
  effect 0 (in_flight w) w (final (run_solver rq solver w))
         (events (run_solver rq solver w)).
Proof.
  intros Hrq.
  induction solver as [response|e|e|k IH|io k IH|method url kwargs k IH];
    intros w Hw Hnd.
  - apply effect_refl.
  - apply effect_refl.
  - apply (effect_of_respects no_event); [|apply quiet_no_event].
    unfold simpleException. respects_auto.
  - cbn in Hnd |- *. by apply IH.
  - cbn in Hnd |- *.
    set (w1 := {| session := session w; env := (io (env w)).2 |}) in *.
    specialize (IH (io (env w)).1 w1 Hw Hnd).
    exact IH.
  - cbn in Hnd |- *.
    pose proof (Hrq method url kwargs w ltac:(lia)) as Hcall.
    unfold call_ok, expected_throttles in Hcall.
    replace (in_flight w =? 0) with false in Hcall by lia.
    cbn [andb] in Hcall.
    destruct (outcome (rq method url kwargs w)) as [response|e|] eqn:Ho;
      cbn [outcome final events] in Hnd |- *; [| |done].
    + specialize (Hcall ltac:(done)).
      pose proof (effect_in_flight _ _ _ _ _ Hcall) as Hc.
      change 0%nat with (0 + 0)%nat. eapply effect_trans; [exact Hcall|].
      rewrite <- Hc. apply IH; [lia | exact Hnd].
    + specialize (Hcall ltac:(done)).
      pose proof (effect_in_flight _ _ _ _ _ Hcall) as Hc.
      change 0%nat with (0 + 0)%nat. eapply effect_trans; [exact Hcall|].
      rewrite <- Hc. apply IH; [lia | exact Hnd].
Qed.

Lemma solve_ok rq v solver w :
  rq_ok rq -> 0 < in_flight w ->
  outcome (solve rq v solver w) <> Diverge ->
  effect 0 (in_flight w) w (final (solve rq v solver w))
         (events (solve rq v solver w)).
Proof.
  intros Hrq Hw. unfold solve.
  apply effect_bind_after.
  { apply (effect_of_respects no_event); [|apply quiet_no_event]. respects_auto. }
  { by eexists. }
  intros [] _. apply effect_bind_after.
  { apply (effect_of_respects no_event); [|apply quiet_no_event]. respects_auto. }
  { by eexists. }
  intros s _. apply effect_bind_after.
  { repeat split; repeat constructor. }
  { by eexists. }
  intros [] _. apply (run_solver_ok rq solver Hrq). exact Hw.
Qed.

Lemma pass_through_ok response b w :
  effect 0 b w (final (pass_through response w))
         (events (pass_through response w)).
Proof.
  apply (effect_of_respects no_event); [|apply quiet_no_event].
  by apply pass_through_respects.
Qed.

Lemma classify_and_solve_ok rq response kwargs w :
  rq_ok rq -> 0 < in_flight w ->
  outcome (classify_and_solve rq response kwargs w) <> Diverge ->
  effect 0 (in_flight w) w (final (classify_and_solve rq response kwargs w))
         (events (classify_and_solve rq response kwargs w)).
Proof.
  intros Hrq Hw. unfold classify_and_solve.
  apply effect_bind_after; [apply effect_refl | by eexists |].
  intros s _. cbn [final get_session].
  repeat match goal with
         | |- context [if ?b then _ else _] => destruct b
         end;
    try (by apply solve_ok).
  intros _. apply pass_through_ok.
Qed.

Lemma own_transport_quiet c b ev :
  b < c -> own_transport c ev -> above b ev /\ is_throttle ev = false.
Proof. destruct ev; simpl; intros; (done || split; (done || lia)). Qed.

(** The [try] block keeps the in-flight counter; its own dispatch and
    those of the calls nested in it see the counter above the value the
    call was entered with. *)
Lemma attempt_ok rq method url kwargs w :
  rq_ok rq -> 0 < in_flight w ->
  outcome (attempt rq method url kwargs w) <> Diverge ->
  effect 0 (in_flight w - 1) w (final (attempt rq method url kwargs w))
         (events (attempt rq method url kwargs w)).
Proof.
  intros Hrq Hw. unfold attempt.
  destruct (obtain_response_spec method url kwargs w) as (Hs & Hev & _).
  assert (in_flight (final (obtain_response method url kwargs w)) = in_flight w)
    as Hc by (unfold in_flight; congruence).
  apply effect_bind.
  { repeat split.
    - congruence.
    - unfold throttled. induction Hev as [|ev evs Hx _ IH]; [done|].
      simpl. destruct (own_transport_quiet (in_flight w) (in_flight w - 1) ev)
        as [_ ->]; [lia | done | exact IH].
    - eapply Forall_impl; [exact Hev|]. intros ev Hx.
      by apply (own_transport_quiet (in_flight w)); [lia|].
    - intros _. congruence. }
  intros [response kwargs'] _.
  apply effect_bind.
  { apply (effect_of_respects no_event); [|apply quiet_no_event].
    by apply loop_protection_respects. }
  intros [] Hlp Hnd.
  assert (in_flight (final (loop_protection
            (final (obtain_response method url kwargs w)))) = in_flight w) as Hc'.
  { rewrite <- Hc.
    eapply (effect_in_flight 0 0), (effect_of_respects no_event);
      [|apply quiet_no_event].
    by apply loop_protection_respects. }
  apply (effect_weaken _ (in_flight w)); [lia|].
  rewrite <- Hc'. apply classify_and_solve_ok; [done | lia | done].
Qed.

Lemma in_flight_tracked w : in_flight (tracked w) = in_flight w + 1.
Proof. reflexivity. Qed.

(** Counting the call in and out again restores the counter. *)
Lemma effect_bracket b w w' evs :
  0 <= in_flight w ->
  effect 0 b (tracked w) w' evs -> effect 0 b w (released w') evs.
Proof.
  intros Hw (Hs & Ht & Hd & Hl). specialize (Hl eq_refl).
  unfold stable in Hs.
  pose proof (f_equal fst Hs) as Hsetup. pose proof (f_equal snd Hs) as Hc.
  cbn [fst snd] in Hsetup, Hc.
  change (current_concurrent_requests (session (tracked w)))
    with (current_concurrent_requests (session w) + 1) in Hc.
  unfold in_flight in Hw.
  assert (release (session w')
          = set_current_concurrent_requests
              (current_concurrent_requests (session w)) (session w')) as Hr.
  { unfold release. replace (0 <? current_concurrent_requests (session w'))
      with true by lia. f_equal. lia. }
  repeat split; auto; unfold released; cbn [session]; rewrite Hr.
  - unfold stable. f_equal. exact Hsetup.
  - intros _. exact Hl.
Qed.

Lemma throttled_quiet (E : Event -> Prop) evs :
  (forall ev, E ev -> is_throttle ev = false) ->
  Forall E evs -> throttled evs = 0%nat.
Proof.
  intros HE Hev. unfold throttled.
  induction Hev as [|ev evs Hx _ IH]; [done|].
  simpl. by rewrite (HE ev Hx).
Qed.

(** The throttle, called from [request]: one throttle event, sleeps, the
    counters kept. *)
Lemma throttle_call_effect fuel b w :
  effect 1 b w
         (final ((emit EvThrottle;; _apply_request_throttling fuel) w))
         (events ((emit EvThrottle;; _apply_request_throttling fuel) w)).
Proof.
  rewrite run_bind. cbn [emit outcome final events app].
  destruct (throttling_respects stable fuel (fun _ _ => eq_refl) w) as [Hs Hev].
  repeat split.
  - exact Hs.
  - change (S (throttled (events (_apply_request_throttling fuel w))) = 1%nat).
    f_equal. apply (throttled_quiet sleep_event); [by intros []|exact Hev].
  - constructor; [exact I|].
    eapply Forall_impl; [exact Hev|]. by intros [].
  - done.
Qed.

Lemma prepare_effect fuel method url kwargs b w :
  0 <= in_flight w ->
  outcome (prepare fuel method url kwargs w) <> Diverge ->
  effect (expected_throttles (kw_skip_throttle kwargs) w) b w
         (final (prepare fuel method url kwargs w))
         (events (prepare fuel method url kwargs w)).
Proof.
  intros Hw.
  pose proof (resolve_proxies_respects
                (fun s => (stable s, last_request_time s))
                (pop_skip_throttle kwargs) (fun _ _ => eq_refl)) as Hres.
  pose proof (stealth_respects
                (fun s => (stable s, last_request_time s)) method url) as Hst.
  assert (forall w0 : World Env,
    effect 0 b w0
      (final ((kwargs0 ← resolve_proxies (pop_skip_throttle kwargs);
               stealth method url kwargs0) w0))
      (events ((kwargs0 ← resolve_proxies (pop_skip_throttle kwargs);
                stealth method url kwargs0) w0))) as Hrest.
  { intros w0. apply (effect_of_respects no_event); [|apply quiet_no_event].
    respects_auto. }
  unfold prepare, expected_throttles.
  rewrite run_bind. cbn [outcome final events get_session app].
  fold (in_flight w).
  destruct (kw_skip_throttle kwargs); cbn [negb andb].
  - rewrite andb_false_r. intros _. exact (Hrest w).
  - rewrite andb_true_r.
    destruct (Z.ltb_spec 0 (in_flight w)) as [Hn|Htop]; cbn [negb].
    + replace (in_flight w =? 0) with false by lia. intros _.
      exact (Hrest w).
    + replace (in_flight w =? 0) with true by lia.
      apply effect_bind; [apply throttle_call_effect | intros; apply Hrest].
Qed.

Lemma request_call_ok fuel rq : rq_ok rq -> rq_ok (request_call fuel rq).
Proof.
  intros Hrq method url kwargs w Hw. unfold call_ok, request_call.
  rewrite run_bind.
  pose proof (prepare_effect fuel method url kwargs (in_flight w) w Hw) as Hp.
  destruct (outcome (prepare fuel method url kwargs w)) as [kwargs'| |] eqn:Ho;
    cbn [outcome final events]; [| intros _; by apply Hp | done].
  specialize (Hp ltac:(done)).
  set (w0 := final (prepare fuel method url kwargs w)) in *.
  rewrite run_bind. cbn [modify_session outcome final events app].
  change {| session := track (session w0); env := env w0 |} with (tracked w0).
  pose proof (effect_in_flight _ _ _ _ _ Hp) as Hc.
  pose proof (attempt_ok rq method url kwargs' (tracked w0) Hrq) as Ha.
  rewrite in_flight_tracked in Ha.
  replace (in_flight w0 + 1 - 1) with (in_flight w) in Ha by lia.
  unfold try_finally.
  destruct (outcome (attempt rq method url kwargs' (tracked w0))) eqn:Hat;
    cbn [outcome final events]; try done; intros _.
  - replace (expected_throttles (kw_skip_throttle kwargs) w)
      with (expected_throttles (kw_skip_throttle kwargs) w + 0)%nat by lia.
    eapply effect_trans; [exact Hp|].
    apply (effect_bracket _ w0); [lia|]. apply Ha; [lia | done].
  - replace (expected_throttles (kw_skip_throttle kwargs) w)
      with (expected_throttles (kw_skip_throttle kwargs) w + 0)%nat by lia.
    eapply effect_trans; [exact Hp|].
    apply (effect_bracket _ w0); [lia|]. apply Ha; [lia | done].
Qed.

Lemma request_ok fuel : rq_ok (request fuel).
Proof.
  induction fuel as [|fuel IH].
  - intros method url kwargs w _ Hnd. by destruct Hnd.
  - intros method url kwargs. simpl. by apply request_call_ok.
Qed.
End Balance.

(** *** The throttle, run *)

Section Throttle.
Context {Env : Type} `{!Collaborators Env}.
Implicit Types (w : World Env).

Lemma wait_for_slot_free fuel w :
  in_flight w < max_concurrent_requests (session w) ->
  wait_for_slot (S fuel) w = {| outcome := Return tt; final := w; events := [] |}.
Proof.
  intros Hc. simpl. run_steps.
  replace (max_concurrent_requests (session w)
           <=? current_concurrent_requests (session w)) with false
    by (unfold in_flight in Hc; lia).
  reflexivity.
Qed.

Lemma wait_for_slot_stuck fuel : forall w,
  max_concurrent_requests (session w) <= in_flight w ->
  outcome (wait_for_slot fuel w) = Diverge.
Proof.
  induction fuel as [|fuel IH]; intros w Hc; [reflexivity|].
  simpl. unfold sleep. run_steps.
  replace (max_concurrent_requests (session w)
           <=? current_concurrent_requests (session w)) with true
    by (unfold in_flight in Hc; lia).
  run_steps. rewrite IH; [reflexivity | exact Hc].
Qed.


Lemma throttling_stuck fuel w :
  max_concurrent_requests (session w) <= in_flight w ->
  outcome (_apply_request_throttling fuel w) = Diverge.
Proof.
  intros Hc. unfold _apply_request_throttling, now, sleep.
  rewrite run_bind. cbn [extern outcome final events].
  rewrite run_bind. cbn [get_session outcome final events session].
  rewrite run_bind.
  match goal with |- context [outcome (?m ?w0)] =>
    assert (exists w1, m w0 = {| outcome := Return tt; final := w1;
                                  events := events (m w0) |}
                       /\ session w1 = session w) as (w1 & -> & Hs)
  end.
  { destruct (Qltb _ _); run_steps; eexists; split; reflexivity. }
  cbn [outcome final events]. rewrite run_bind.
  rewrite (wait_for_slot_stuck fuel w1); [reflexivity|].
  unfold in_flight. rewrite Hs. exact Hc.
Qed.
End Throttle.

Section Recording.
Context {Env : Type} `{!Collaborators Env}.
Implicit Types (w : World Env) (kwargs : Kwargs).

Lemma Qltb_true x y : Qltb x y = true -> (x < y)%Q.
Proof.
  unfold Qltb. intros H. apply negb_true_iff in H.
  apply Qnot_le_lt. intros Hle. apply Qle_bool_iff in Hle. congruence.
Qed.

Lemma Qltb_false x y : Qltb x y = false -> (y <= x)%Q.
Proof.
  unfold Qltb. intros H. apply negb_false_iff in H. by apply Qle_bool_iff.
Qed.

Lemma throttling_without_fuel w :
  outcome (_apply_request_throttling 0 w) = Diverge.
Proof.
  unfold _apply_request_throttling, now, sleep. run_steps.
  destruct (Qltb _ _); reflexivity.
Qed.

(** The throttle comes back only when there is room under the ceiling. *)
Lemma throttling_returns fuel w :
  outcome (_apply_request_throttling fuel w) <> Diverge ->
  in_flight w < max_concurrent_requests (session w)
  /\ exists fuel', fuel = S fuel'.
Proof.
  intros Hnd. split.
  - destruct (Z.lt_ge_cases (in_flight w) (max_concurrent_requests (session w)))
      as [|Hge]; [done|].
    by rewrite throttling_stuck in Hnd.
  - destruct fuel; [by rewrite throttling_without_fuel in Hnd | by eexists].
Qed.

(** After [prepare], the recorded dispatch time is the one the throttle
    wrote, when the throttle ran. *)
Lemma prepare_records fuel method url kwargs w :
  throttle_gate kwargs w = true ->
  outcome (prepare fuel method url kwargs w) <> Diverge ->
  outcome (_apply_request_throttling fuel w) <> Diverge
  /\ last_request_time (session (final (prepare fuel method url kwargs w)))
     = last_request_time (session (final (_apply_request_throttling fuel w))).
Proof.
  unfold throttle_gate, in_flight. intros Hg.
  pose proof (resolve_proxies_respects last_request_time
                (pop_skip_throttle kwargs) (fun _ _ => eq_refl)) as Hres.
  pose proof (stealth_respects last_request_time method url) as Hst.
  unfold prepare. rewrite run_bind.
  cbn [outcome final events get_session app session]. rewrite Hg.
  rewrite run_bind.
  change (outcome ((emit EvThrottle;; _apply_request_throttling fuel) w))
    with (outcome (_apply_request_throttling fuel w)).
  change (final ((emit EvThrottle;; _apply_request_throttling fuel) w))
    with (final (_apply_request_throttling fuel w)).
  destruct (outcome (_apply_request_throttling fuel w));
    cbn [outcome final events]; [|done|done].
  intros _. split; [done|].
  match goal with |- context [final (?m ?w0)] =>
    assert (respects (keeps last_request_time) no_event m) as Hm
      by respects_auto;
    exact (proj1 (Hm w0))
  end.
Qed.

(** The recorded dispatch time after a call: the one the call's own
    throttle wrote, or the one found. *)
Lemma request_records fuel method url kwargs w :
  0 <= in_flight w ->
  outcome (request (S fuel) method url kwargs w) <> Diverge ->
  if throttle_gate kwargs w then
    outcome (_apply_request_throttling fuel w) <> Diverge
    /\ last_request_time (session (final (request (S fuel) method url kwargs w)))
       = last_request_time (session (final (_apply_request_throttling fuel w)))
  else
    last_request_time (session (final (request (S fuel) method url kwargs w)))
    = last_request_time (session w).
Proof.
  intros Hw Hnd.
  destruct (throttle_gate kwargs w) eqn:Hg.
  - revert Hnd. simpl. unfold request_call. rewrite run_bind.
    pose proof (prepare_records fuel method url kwargs w Hg) as Hp.
    pose proof (prepare_effect fuel method url kwargs 0 w Hw) as He.
    destruct (outcome (prepare fuel method url kwargs w)) as [kwargs'| |];
      cbn [outcome final events]; [| intros _; by apply Hp | done].
    specialize (Hp ltac:(done)). specialize (He ltac:(done)).
    destruct Hp as [Hthr Hp].
    set (w0 := final (prepare fuel method url kwargs w)) in *.
    rewrite run_bind. cbn [modify_session outcome final events app].
    change {| session := track (session w0); env := env w0 |} with (tracked w0).
    pose proof (effect_in_flight _ _ _ _ _ He) as Hc.
    pose proof (attempt_ok (request fuel) method url kwargs' (tracked w0)
                  (request_ok fuel)) as Ha.
    rewrite in_flight_tracked in Ha.
    assert (outcome (attempt (request fuel) method url kwargs' (tracked w0))
            <> Diverge ->
            last_request_time
              (session (released (final (attempt (request fuel) method url
                                           kwargs' (tracked w0)))))
            = last_request_time (session w0)) as Hl.
    { intros Hat.
      destruct (effect_bracket (in_flight w0 + 1 - 1) w0 _ _ ltac:(lia)
                  (Ha ltac:(lia) Hat)) as (_ & _ & _ & Hl).
      exact (Hl eq_refl). }
    rewrite try_finally_outcome. intros Hat.
    rewrite try_finally_final by done.
    split; [done|]. etrans; [by apply Hl | exact Hp].
  - destruct (request_ok (S fuel) method url kwargs w Hw Hnd) as (_ & _ & _ & Hl).
    apply Hl. unfold expected_throttles, throttle_gate in *.
    destruct (kw_skip_throttle kwargs); cbn [negb andb] in *.
    + by rewrite andb_false_r.
    + replace (in_flight w =? 0) with false; [done|].
      apply negb_false_iff in Hg. lia.
Qed.
End Recording.

(** *** The spacing of dispatches (throttle) *)

Section Spacing.
Context {Env : Type} `{!Collaborators Env} `{!ClockLaws Env}.
Implicit Types (w : World Env) (kwargs : Kwargs).

End Spacing.

(* ===================================================================== *)
(** ** The throttle and the in-flight counter                             *)
(* ===================================================================== *)

Section CounterClaims.
Context {Env : Type} `{!Collaborators Env}.
Implicit Types (w : World Env) (kwargs : Kwargs).

Lemma in_throttled evs : In EvThrottle evs <-> throttled evs <> 0%nat.
Proof.
  unfold throttled. induction evs as [|ev evs IH]; simpl; [by split|].
  destruct ev; simpl; split; intros H; try lia; try (left; reflexivity);
    try (right; by apply IH);
    (apply IH; destruct H as [H|H]; [discriminate | exact H]).
Qed.

Lemma above_at_dispatch b evs :
  Forall (above b) evs -> Forall (Z.lt b) (in_flight_at_dispatch evs).
Proof.
  unfold in_flight_at_dispatch.
  induction 1 as [|ev evs Hev _ IH]; [constructor|].
  destruct ev; simpl in *; auto.
Qed.

Lemma reachable_in_flight w : reachable w -> 0 <= in_flight w.
Proof.
  induction 1 as [cfg e|fuel method url kwargs w _ IH Hnd]; [done|].
  pose proof (request_ok fuel method url kwargs w IH Hnd) as He.
  by rewrite (effect_in_flight _ _ _ _ _ He).
Qed.

(** C4 (as amended).  [request] counts the call in before it dispatches
    and counts it out on every exit path, a returned response, a solver's
    result or a raised error: a call that completes leaves the in-flight
    counter as it found it, so the counter is back at 0 once the
    outstanding calls are over.  Every dispatch made during the call, its
    own and those of calls nested in it, sees the counter above its value
    at entry.  The ceiling [max_concurrent_requests] is looked at by the
    throttle only: a call that went through the throttle was counted in
    within the ceiling. *)
Theorem in_flight_balanced fuel method url kwargs w :
  0 <= in_flight w ->
  outcome (request fuel method url kwargs w) <> Diverge ->
  in_flight (final (request fuel method url kwargs w)) = in_flight w
  /\ Forall (Z.lt (in_flight w))
            (in_flight_at_dispatch (events (request fuel method url kwargs w)))
  /\ (throttle_gate kwargs w = true ->
      in_flight w + 1 <= max_concurrent_requests (session w)).
Proof.
  intros Hw Hnd.
  destruct (request_ok fuel method url kwargs w Hw Hnd) as (Hs & _ & Hd & _).
  split; [unfold in_flight, stable in *; congruence|].
  split; [by apply above_at_dispatch|].
  intros Hg. destruct fuel as [|fuel]; [by destruct Hnd|].
  pose proof (request_records fuel method url kwargs w Hw Hnd) as Hr.
  rewrite Hg in Hr. destruct Hr as [Hthr _].
  apply throttling_returns in Hthr. lia.
Qed.

(** C5.  A call of [request] that completes went through the throttle if
    and only if no request was in flight when it was entered and
    [_skip_throttle] was not set; it then went through it once.  A call
    entered while a request is in flight is not throttled, and neither is
    any call nested in it. *)
Theorem throttle_only_top_level fuel method url kwargs w :
  0 <= in_flight w ->
  outcome (request fuel method url kwargs w) <> Diverge ->
  (In EvThrottle (events (request fuel method url kwargs w))
   <-> in_flight w = 0 /\ kw_skip_throttle kwargs = false)
  /\ (throttled (events (request fuel method url kwargs w)) <= 1)%nat
  /\ (0 < in_flight w ->
      ~ In EvThrottle (events (request fuel method url kwargs w))).
Proof.
  intros Hw Hnd.
  destruct (request_ok fuel method url kwargs w Hw Hnd) as (_ & Ht & _ & _).
  rewrite in_throttled, Ht. unfold expected_throttles.
  destruct (Z.eqb_spec (in_flight w) 0) as [Hz|Hnz];
    destruct (kw_skip_throttle kwargs); cbn [negb andb];
    repeat split; try lia; try done; intros []; try done; lia.
Qed.

(** C10.  The in-flight counter is never negative: it is 0 in a new
    session, the [finally] clause takes one off only when the counter is
    strictly positive, every session a caller can hold has a counter of
    at least 0, and every dispatch is made with a counter of at least
    1. *)
Theorem in_flight_never_negative :
  (forall cfg, current_concurrent_requests (__init__ cfg) = 0)
  /\ (forall s,
        current_concurrent_requests (release s)
        = if 0 <? current_concurrent_requests s
          then current_concurrent_requests s - 1
          else current_concurrent_requests s)
  /\ (forall w, reachable w -> 0 <= in_flight w)
  /\ (forall w fuel method url kwargs,
        reachable w ->
        outcome (request fuel method url kwargs w) <> Diverge ->
        Forall (Z.lt 0)
          (in_flight_at_dispatch (events (request fuel method url kwargs w)))).
Proof.
  split; [done|]. split.
  { intros s. unfold release. by destruct (0 <? _). }
  split; [apply reachable_in_flight|].
  intros w fuel method url kwargs Hw Hnd.
  apply reachable_in_flight in Hw.
  destruct (request_ok fuel method url kwargs w Hw Hnd) as (_ & _ & Hd & _).
  apply above_at_dispatch in Hd.
  eapply Forall_impl; [exact Hd|]. intros c Hc. simpl in Hc. lia.
Qed.
End CounterClaims.

Section SpacingClaim.
Context {Env : Type} `{!Collaborators Env} `{!ClockLaws Env}.
Implicit Types (w : World Env) (kwargs : Kwargs).

End SpacingClaim.

(** *** From the response to the result *)

Section Classification.
Context {Env : Type} `{!Collaborators Env}.
Implicit Types (w : World Env) (kwargs : Kwargs)
         (rq : string -> string -> Kwargs -> M Env Response).

(** The cascade of tests of [request] picks the first enabled variant, in
    the priority order, whose classifier matches. *)
Lemma classify_run rq response kwargs w :
  classify_and_solve rq response kwargs w =
  match first_match (session w) response with
  | Some v => solve rq v (solver_of v response kwargs) w
  | None => pass_through response w
  end.
Proof.
  unfold classify_and_solve. rewrite run_bind.
  cbn [get_session outcome final events app].
  unfold first_match, priority_order. cbn [List.find variant_enabled is_challenge].
  set (s := session w).
  assert (forall r : Run Env Response,
             {| outcome := outcome r; final := final r; events := events r |} = r)
    as Heta by (by intros []).
  repeat match goal with
         | |- context [if ?b then _ else _] => destruct b
         end; apply Heta.
Qed.

Lemma first_match_setup s s' response :
  setup s' = setup s -> first_match s' response = first_match s response.
Proof.
  unfold setup. intros Hs. injection Hs as H1 H2 H3 H4 _ _ _ _ _.
  unfold first_match, priority_order.
  cbn [List.find variant_enabled]. by rewrite H1, H2, H3, H4.
Qed.

Lemma first_match_sound s response v :
  first_match s response = Some v ->
  variant_enabled s v = true /\ is_challenge v response = true.
Proof.
  unfold first_match. intros H. apply List.find_some in H as [_ H].
  by apply andb_true_iff in H.
Qed.

Lemma request_after_response fuel method url kwargs w response kwargs' :
  outcome (response_phase fuel method url kwargs w) = Return (response, kwargs') ->
  request (S fuel) method url kwargs w =
  finished (response_phase fuel method url kwargs w)
           (conclude (request fuel) response kwargs'
                     (final (response_phase fuel method url kwargs w))).
Proof.
  simpl. unfold request_call, response_phase, attempt, conclude, finished.
  rewrite !(run_bind (prepare fuel method url kwargs)).
  destruct (outcome (prepare fuel method url kwargs w)) as [kwargs1| |];
    cbn [outcome final events]; [|done|done].
  set (w0 := final (prepare fuel method url kwargs w)).
  rewrite !(run_bind (modify_session track)).
  cbn [modify_session outcome final events app].
  intros Ho. unfold try_finally. rewrite run_bind, Ho.
  cbn [outcome final events].
  match goal with |- context [outcome (?m ?w1)] =>
    destruct (outcome (m w1)) eqn:Hc end;
    cbn [outcome final events]; f_equal; by rewrite app_assoc.
Qed.

(** Nothing before the loop protection touches the depth counter or the
    configuration. *)
Lemma response_phase_keeps fuel method url kwargs w :
  let w' := final (response_phase fuel method url kwargs w) in
  setup (session w') = setup (session w) /\ depth w' = depth w.
Proof.
  cbv zeta. unfold response_phase, depth.
  pose proof (resolve_proxies_respects (fun s => (setup s, _solveDepthCnt s))
                (pop_skip_throttle kwargs) (fun _ _ => eq_refl)) as Hres.
  pose proof (stealth_respects (fun s => (setup s, _solveDepthCnt s)) method url)
    as Hst.
  pose proof (throttling_respects (fun s => (setup s, _solveDepthCnt s)) fuel
                (fun _ _ => eq_refl)) as Hthr.
  assert (respects (keeps (fun s => (setup s, _solveDepthCnt s))) any_event
            (prepare fuel method url kwargs : M Env Kwargs)) as Hp.
  { assert (forall A (m : M Env A) E,
               respects (keeps (fun s => (setup s, _solveDepthCnt s))) E m ->
               respects (keeps (fun s => (setup s, _solveDepthCnt s))) any_event m)
      as Hany.
    { intros A m E Hm. eapply respects_weaken, Hm; [auto | done]. }
    apply Hany in Hres. apply Hany in Hthr.
    pose proof (fun kw => Hany _ _ _ (Hst kw)) as Hst'.
    unfold prepare. respects_auto. }
  rewrite run_bind. destruct (Hp w) as [Hk _]. unfold keeps in Hk.
  pose proof (f_equal fst Hk) as Hk1. pose proof (f_equal snd Hk) as Hk2.
  cbn [fst snd] in Hk1, Hk2.
  destruct (outcome (prepare fuel method url kwargs w)) as [kwargs1| |];
    cbn [outcome final events]; [| done | done].
  rewrite run_bind. cbn [modify_session outcome final events].
  match goal with |- context [obtain_response ?m ?u ?k ?w1] =>
    destruct (obtain_response_spec m u k w1) as (-> & _ & _) end.
  cbn [session]. split; [exact Hk1 | exact Hk2].
Qed.
End Classification.

(* ===================================================================== *)
(** ** The depth counter and the classification                           *)
(* ===================================================================== *)

Section DepthClaims.
Context {Env : Type} `{!Collaborators Env}.
Implicit Types (w : World Env) (kwargs : Kwargs)
         (rq : string -> string -> Kwargs -> M Env Response).

Lemma depth_released w : depth (released w) = depth w.
Proof.
  unfold depth, released, release. cbn [session].
  by destruct (0 <? current_concurrent_requests (session w)).
Qed.

Lemma loop_protection_run w :
  loop_protection w =
  if solveDepth (session w) <=? depth w
  then {| outcome := Raise (CloudflareLoopProtection (depth w));
          final := depth_set 0 w; events := [] |}
  else {| outcome := Return tt; final := w; events := [] |}.
Proof.
  unfold loop_protection, simpleException, depth. run_steps.
  by destruct (solveDepth (session w) <=? _solveDepthCnt (session w)).
Qed.

Lemma solve_run rq v solver w :
  solve rq v solver w =
  let solving := run_solver rq solver (depth_set (depth w + 1) w) in
  {| outcome := outcome solving; final := final solving;
     events := EvSolve v (depth w + 1) :: events solving |}.
Proof.
  unfold solve. run_steps. unfold depth_set, depth.
  by destruct (outcome (run_solver rq solver _)).
Qed.

Lemma pass_through_plain response w :
  is_redirect response = false ->
  status_code response <> 429 -> status_code response <> 503 ->
  outcome (pass_through response w) = Return response
  /\ depth (final (pass_through response w)) = 0
  /\ events (pass_through response w) = [].
Proof.
  intros Hr H429 H503. unfold pass_through, depth. run_steps.
  rewrite Hr.
  replace (status_code response =? 429) with false by lia.
  replace (status_code response =? 503) with false by lia.
  cbn [negb orb andb].
  destruct ((status_code response =? 200) && negb (_in_403_retry (session w)));
    run_steps; done.
Qed.

Lemma find_first {A} (f : A -> bool) l x :
  List.find f l = Some x ->
  exists before after,
    l = before ++ x :: after /\ Forall (fun y => f y = false) before.
Proof.
  induction l as [|y l IH]; [done|]. simpl.
  destruct (f y) eqn:Hy.
  - intros [= ->]. exists [], l. by split.
  - intros H. destruct (IH H) as (before & after & -> & Hb).
    exists (y :: before), after. split; [done | by constructor].
Qed.

(** C1.  When the depth counter of the session is at or above
    [solveDepth] and the call gets its response (the dispatch and the
    hooks come back), the call raises [CloudflareLoopProtection]; the
    depth counter is 0 afterwards; no solver is entered; the call is
    counted out. *)
Theorem loop_protection_raises fuel method url kwargs w response kwargs' :
  solveDepth (session w) <= depth w ->
  outcome (response_phase fuel method url kwargs w) = Return (response, kwargs') ->
  let r := request (S fuel) method url kwargs w in
  outcome r = Raise (CloudflareLoopProtection (depth w))
  /\ depth (final r) = 0
  /\ events r = events (response_phase fuel method url kwargs w).
Proof.
  intros Hd Ho. cbv zeta.
  rewrite (request_after_response _ _ _ _ _ _ _ Ho).
  destruct (response_phase_keeps fuel method url kwargs w) as [Hs Hk].
  cbv zeta in Hs, Hk.
  assert (solveDepth (session (final (response_phase fuel method url kwargs w)))
          = solveDepth (session w)) as Hlim.
  { unfold setup in Hs. by injection Hs. }
  unfold finished, conclude. rewrite run_bind, loop_protection_run, Hlim, Hk.
  replace (solveDepth (session w) <=? depth w) with true by lia.
  cbn [outcome final events]. repeat split.
  - by rewrite depth_released.
  - by rewrite app_nil_r.
Qed.

(** C2.  When the response the call gets matches no enabled challenge
    variant, is not a redirect and has a status other than 429 and 503,
    the depth counter is 0 after the call, whatever it was before; the
    call returns that response (below the depth limit; at the limit the
    loop protection has raised, which resets the counter as well). *)
Theorem depth_reset_on_plain_response
        fuel method url kwargs w response kwargs' :
  outcome (response_phase fuel method url kwargs w) = Return (response, kwargs') ->
  first_match (session w) response = None ->
  is_redirect response = false ->
  status_code response <> 429 ->
  status_code response <> 503 ->
  let r := request (S fuel) method url kwargs w in
  depth (final r) = 0
  /\ outcome r = (if solveDepth (session w) <=? depth w
                  then Raise (CloudflareLoopProtection (depth w))
                  else Return response)
  /\ events r = events (response_phase fuel method url kwargs w).
Proof.
  intros Ho Hnone Hr H429 H503. cbv zeta.
  rewrite (request_after_response _ _ _ _ _ _ _ Ho).
  destruct (response_phase_keeps fuel method url kwargs w) as [Hs Hk].
  cbv zeta in Hs, Hk.
  assert (solveDepth (session (final (response_phase fuel method url kwargs w)))
          = solveDepth (session w)) as Hlim.
  { unfold setup in Hs. by injection Hs. }
  unfold finished, conclude. rewrite run_bind, loop_protection_run, Hlim, Hk.
  destruct (solveDepth (session w) <=? depth w); cbn [outcome final events].
  - repeat split.
    + by rewrite depth_released.
    + by rewrite app_nil_r.
  - rewrite classify_run, (first_match_setup _ _ _ Hs), Hnone.
    destruct (pass_through_plain response
                (final (response_phase fuel method url kwargs w)) Hr H429 H503)
      as (Hpo & Hpd & Hpe).
    rewrite Hpo, Hpe. repeat split.
    + by rewrite depth_released.
    + by rewrite app_nil_r.
Qed.

(** C3.  Below the depth limit, when [v] is the first variant of the
    order Turnstile, v3, v2 CAPTCHA, v2, v1 that is enabled and whose
    classifier matches the response, the call adds exactly 1 to the depth
    counter, enters the solver of [v] and no other, and hands back what
    that solver gives: its response or its exception. *)
Theorem first_match_is_solved fuel method url kwargs w response kwargs' v :
  outcome (response_phase fuel method url kwargs w) = Return (response, kwargs') ->
  depth w < solveDepth (session w) ->
  first_match (session w) response = Some v ->
  let before := final (response_phase fuel method url kwargs w) in
  let entered := depth_set (depth w + 1) before in
  let solving := run_solver (request fuel) (solver_of v response kwargs') entered in
  let r := request (S fuel) method url kwargs w in
  (exists earlier later,
      priority_order = earlier ++ v :: later
      /\ Forall (fun v' => variant_enabled (session w) v'
                           && is_challenge v' response = false) earlier)
  /\ variant_enabled (session w) v = true
  /\ is_challenge v response = true
  /\ depth entered = depth w + 1
  /\ outcome r = outcome solving
  /\ events r = events (response_phase fuel method url kwargs w)
                ++ EvSolve v (depth w + 1) :: events solving
  /\ (outcome solving <> Diverge -> final r = released (final solving)).
Proof.
  intros Ho Hd Hv. cbv zeta.
  split; [by apply find_first|].
  destruct (first_match_sound _ _ _ Hv) as [Hen Hch].
  do 3 (split; [done|]).
  rewrite (request_after_response _ _ _ _ _ _ _ Ho).
  destruct (response_phase_keeps fuel method url kwargs w) as [Hs Hk].
  cbv zeta in Hs, Hk.
  assert (solveDepth (session (final (response_phase fuel method url kwargs w)))
          = solveDepth (session w)) as Hlim.
  { unfold setup in Hs. by injection Hs. }
  unfold finished, conclude. rewrite run_bind, loop_protection_run, Hlim, Hk.
  replace (solveDepth (session w) <=? depth w) with false by lia.
  cbn [outcome final events app].
  rewrite classify_run, (first_match_setup _ _ _ Hs), Hv, solve_run, Hk.
  cbn [outcome final events]. repeat split.
  intros Hnd. by destruct (outcome (run_solver _ _ _)).
Qed.
End DepthClaims.

(* ===================================================================== *)
(** ** The proxy manager                                                  *)
(* ===================================================================== *)

Section ProxyClaim.
Context {Env : Type} `{!Collaborators Env}.
Implicit Types (w : World Env) (kwargs : Kwargs).

Lemma obtain_response_failure method url kwargs w method' url' kwargs' e :
  outcome (pre_hook method url kwargs w) = Return (method', url', kwargs') ->
  (perform_request (session w) method' url' kwargs' (env w)).1 = inl e ->
  is_connection_failure e = true ->
  obtain_response method url kwargs w =
  {| outcome := Raise e;
     final := {| session := session w;
                 env := after_report report_failure kwargs'
                          (perform_request (session w) method' url' kwargs' (env w)).2 |};
     events := EvDispatch (in_flight w) (kw_proxies kwargs')
                 :: failure_report kwargs' |}.
Proof.
  intros Hpre Hans Hconn. unfold obtain_response. rewrite run_bind.
  destruct (pre_hook_run method url kwargs w) as (o & Heq & _).
  rewrite Heq in Hpre |- *. cbn [outcome final events] in Hpre |- *. subst o.
  rewrite run_bind, dispatch_run. cbv zeta. rewrite Hans, Hconn.
  reflexivity.
Qed.

Lemma obtain_response_success method url kwargs w method' url' kwargs' raw :
  outcome (pre_hook method url kwargs w) = Return (method', url', kwargs') ->
  (perform_request (session w) method' url' kwargs' (env w)).1 = inr raw ->
  let r := obtain_response method url kwargs w in
  events r = EvDispatch (in_flight w) (kw_proxies kwargs')
               :: success_report kwargs'
  /\ final r = {| session := session w;
                  env := after_report report_success kwargs'
                           (perform_request (session w) method' url' kwargs'
                                            (env w)).2 |}.
Proof.
  intros Hpre Hans. cbv zeta. unfold obtain_response. rewrite run_bind.
  destruct (pre_hook_run method url kwargs w) as (o & Heq & _).
  rewrite Heq in Hpre |- *. cbn [outcome final events] in Hpre |- *. subst o.
  rewrite run_bind, dispatch_run. cbv zeta. rewrite Hans.
  cbn [outcome final events]. rewrite run_bind.
  match goal with |- context [post_hook ?r ?w'] =>
    destruct (post_hook_run r w') as (o' & -> & _) end.
  cbn [outcome final events app].
  destruct o'; cbn [outcome final events]; rewrite ?app_nil_r; done.
Qed.

(** [prepare] calls neither the transport nor the proxy manager's
    reports. *)
Lemma prepare_events fuel method url kwargs w :
  Forall throttle_event (events (prepare fuel method url kwargs w)).
Proof.
  assert (forall A (m : M Env A) (E : Event -> Prop),
             (forall ev, E ev -> throttle_event ev) ->
             respects (keeps (fun _ => tt)) E m ->
             respects (keeps (fun _ => tt)) throttle_event m) as Hweak.
  { intros A m E HE Hm. eapply respects_weaken, Hm; auto. }
  assert (forall ev, sleep_event ev -> throttle_event ev) as Hsl
    by (by intros []).
  assert (forall ev, no_event ev -> throttle_event ev) as Hno
    by (by intros ? []).
  pose proof (Hweak _ _ _ Hsl
                (throttling_respects (fun _ => tt) fuel (fun _ _ => eq_refl)))
    as Hthr.
  pose proof (Hweak _ _ _ Hno
                (resolve_proxies_respects (fun _ => tt)
                   (pop_skip_throttle kwargs) (fun _ _ => eq_refl))) as Hres.
  pose proof (fun kw => Hweak _ _ _ Hno
                (stealth_respects (fun _ => tt) method url kw)) as Hst.
  assert (respects (keeps (fun _ => tt)) throttle_event
            (prepare fuel method url kwargs : M Env Kwargs)) as Hp
    by (unfold prepare; respects_auto).
  exact (proj2 (Hp w)).
Qed.

Lemma in_success_report kwargs p :
  In (EvReportSuccess p) (success_report kwargs) <-> proxy_in_use kwargs = Some p.
Proof.
  unfold success_report. destruct (proxy_in_use kwargs); simpl; [|by split].
  split; [intros [[= ->]|[]]; done | intros [= ->]; by left].
Qed.

(** C7.  When the transport raises a proxy or connection error, the call
    reports a failure to the proxy manager for the proxy the request went
    through, if it went through one, and raises the same error; the
    transport was called once.  When the transport answers, a success is
    reported if and only if the request went through a proxy, and for
    that proxy. *)
Theorem proxy_feedback fuel method url kwargs w kwargs1 method' url' kwargs2 :
  outcome (prepare fuel method url kwargs w) = Return kwargs1 ->
  let ready := tracked (final (prepare fuel method url kwargs w)) in
  outcome (pre_hook method url kwargs1 ready) = Return (method', url', kwargs2) ->
  let answer := perform_request (session ready) method' url' kwargs2 (env ready) in
  let asked := EvDispatch (in_flight ready) (kw_proxies kwargs2) in
  (forall e,
      answer.1 = inl e -> is_connection_failure e = true ->
      let r := request (S fuel) method url kwargs w in
      outcome r = Raise e
      /\ events r = events (prepare fuel method url kwargs w)
                    ++ asked :: failure_report kwargs2
      /\ env (final r) = after_report report_failure kwargs2 answer.2)
  /\ (forall raw,
        answer.1 = inr raw ->
        let r := response_phase fuel method url kwargs w in
        events r = events (prepare fuel method url kwargs w)
                   ++ asked :: success_report kwargs2
        /\ env (final r) = after_report report_success kwargs2 answer.2
        /\ forall p, In (EvReportSuccess p) (events r)
                     <-> proxy_in_use kwargs2 = Some p).
Proof.
  intros Hprep ready Hpre answer asked. split.
  - intros e Hans Hconn. cbv zeta. simpl request. unfold request_call.
    rewrite run_bind, Hprep. cbn [outcome final events].
    rewrite run_bind. cbn [modify_session outcome final events app].
    fold (tracked (final (prepare fuel method url kwargs w))). fold ready.
    rewrite try_finally_outcome, try_finally_events.
    unfold attempt. rewrite run_bind.
    rewrite (obtain_response_failure _ _ _ _ _ _ _ _ Hpre Hans Hconn).
    cbn [outcome final events]. repeat split.
    rewrite try_finally_final.
    + cbn [env]. rewrite run_bind.
      by rewrite (obtain_response_failure _ _ _ _ _ _ _ _ Hpre Hans Hconn).
    + rewrite run_bind.
      by rewrite (obtain_response_failure _ _ _ _ _ _ _ _ Hpre Hans Hconn).
  - intros raw Hans. cbv zeta. unfold response_phase.
    rewrite run_bind, Hprep. cbn [outcome final events].
    rewrite run_bind. cbn [modify_session outcome final events app].
    fold (tracked (final (prepare fuel method url kwargs w))). fold ready.
    destruct (obtain_response_success _ _ _ _ _ _ _ _ Hpre Hans) as [Hev Hfin].
    rewrite Hev, Hfin. repeat split.
    + intros Hin. apply in_app_or in Hin as [Hin|Hin].
      * exfalso.
        pose proof (prepare_events fuel method url kwargs w) as Hq.
        rewrite List.Forall_forall in Hq. exact (Hq _ Hin).
      * destruct Hin as [Hin|Hin]; [discriminate|]. by apply in_success_report.
    + intros Hp. apply in_or_app. right. right. by apply in_success_report.
Qed.
End ProxyClaim.

(* ===================================================================== *)
(** ** The session refresh: cookies                                       *)
(* ===================================================================== *)

Section CookieClaims.
Import CookieJar.
Implicit Types (j : jar) (k : key).

Lemma clear_or_pass_lookup name j d k :
  clear_or_pass name j d !! k
  = if decide (k = (d, "/"%string, name)) then None else j !! k.
Proof.
  unfold clear_or_pass, clear.
  destruct (j !! (d, "/"%string, name)) as [v|] eqn:Hj.
  - rewrite lookup_delete. repeat case_decide; congruence.
  - case_decide as Hk; [by rewrite Hk | done].
Qed.

Lemma clear_domains_lookup name ds : forall j k,
  foldl (clear_or_pass name) j ds !! k
  = if decide (name_of k = name /\ path_of k = "/"%string /\ domain_of k ∈ ds)
    then None else j !! k.
Proof.
  induction ds as [|d ds IH]; intros j k; simpl.
  - case_decide as H; [|done]. destruct H as (_ & _ & H). by apply elem_of_nil in H.
  - rewrite IH, clear_or_pass_lookup.
    destruct k as [[kd kp] kn]; unfold name_of, path_of, domain_of; simpl.
    repeat case_decide; rewrite ?elem_of_cons in *; naive_solver.
Qed.

Lemma elem_of_list_domains j k v :
  j !! k = Some v -> domain_of k ∈ list_domains j.
Proof.
  intros Hk. unfold list_domains. apply elem_of_remove_dups.
  apply list_elem_of_fmap. exists k. split; [done|].
  apply list_elem_of_fmap. exists (k, v). split; [done|].
  by apply elem_of_map_to_list.
Qed.

Lemma clear_name_lookup j name k :
  clear_name j name !! k
  = if decide (name_of k = name /\ path_of k = "/"%string) then None else j !! k.
Proof.
  unfold clear_name. rewrite clear_domains_lookup.
  destruct (j !! k) as [v|] eqn:Hk.
  - pose proof (elem_of_list_domains j k v Hk).
    repeat case_decide; naive_solver.
  - by do 2 destruct (decide _).
Qed.

Lemma clear_names_lookup names : forall j k,
  foldl clear_name j names !! k
  = if decide (name_of k ∈ names /\ path_of k = "/"%string) then None else j !! k.
Proof.
  induction names as [|name names IH]; intros j k; cbn [foldl].
  - case_decide as H; [|done]. destruct H as [H _]. by apply elem_of_nil in H.
  - rewrite IH, clear_name_lookup.
    repeat case_decide; rewrite ?elem_of_cons in *; naive_solver.
Qed.

(** C8 (as amended).  [_clear_cloudflare_cookies] removes, in every
    domain of the jar, the cookies that carry one of the six protection
    names on the path "/", and changes no other cookie: a cookie of
    another name stays, and so does a cookie on another path, whatever
    its name. *)
Theorem clear_cloudflare_cookies_lookup j k :
  _clear_cloudflare_cookies j !! k
  = if decide (name_of k ∈ cf_cookie_names /\ path_of k = "/"%string)
    then None else j !! k.
Proof. apply clear_names_lookup. Qed.

(** C8, as stated, fails: a protection cookie set on a path other than
    "/" is still in the jar after the refresh. *)
Lemma protection_cookie_survives_refresh :
  let j : jar := {[ ("example.com", "/app", "cf_clearance")%string := "token"%string ]} in
  name_of ("example.com", "/app", "cf_clearance")%string ∈ cf_cookie_names
  /\ _clear_cloudflare_cookies j !! ("example.com", "/app", "cf_clearance")%string
     = Some "token"%string.
Proof.
  split.
  - unfold cf_cookie_names. simpl. by left.
  - by vm_compute.
Qed.
End CookieClaims.

(* ===================================================================== *)
(** ** The transport adapter                                              *)
(* ===================================================================== *)

Section AdapterClaims.
Import CipherSuiteAdapter.

(** C9 (as amended).  The constructor raises [TypeError] exactly for a
    [source_address] that is true in Python's sense and is neither a
    string nor a tuple.  A plain address string is accepted and becomes
    the pair (address, 0); a tuple is accepted as it is, whatever its
    length and items; a false value (None, 0, an empty string, tuple or
    list) is taken as no source address and kept. *)
Theorem source_address_check (v : PyVal) :
  (init_source_address v = inl TypeError
   <-> truthy v = true /\ isinstance_str v = false /\ isinstance_tuple v = false)
  /\ (forall s, s <> EmptyString ->
                init_source_address (PyStr s) = inr (PyTuple [PyStr s; PyInt 0]))
  /\ (forall items, init_source_address (PyTuple items) = inr (PyTuple items))
  /\ (truthy v = false -> init_source_address v = inr v).
Proof.
  repeat split.
  - unfold init_source_address in H. destruct v; simpl in *;
      repeat match goal with
             | H : context [if ?b then _ else _] |- _ => destruct b eqn:?
             end; congruence.
  - unfold init_source_address in H. destruct v; simpl in *;
      repeat match goal with
             | H : context [if ?b then _ else _] |- _ => destruct b eqn:?
             end; congruence.
  - unfold init_source_address in H. destruct v; simpl in *;
      repeat match goal with
             | H : context [if ?b then _ else _] |- _ => destruct b eqn:?
             end; congruence.
  - intros (Ht & Hs & Htu). unfold init_source_address. rewrite Ht, Hs.
    by rewrite Htu.
  - intros s Hs. unfold init_source_address. simpl.
    destruct (String.eqb_spec s EmptyString); [done|reflexivity].
  - intros items. unfold init_source_address. simpl. by destruct items.
  - intros Ht. unfold init_source_address. by rewrite Ht.
Qed.

(** C9, as stated, fails: a tuple of three numbers is neither an address
    string nor an address and port pair, and the constructor takes it. *)
Lemma odd_tuple_is_accepted :
  recognized_shape (PyTuple [PyInt 1; PyInt 2; PyInt 3]) = false
  /\ init_source_address (PyTuple [PyInt 1; PyInt 2; PyInt 3])
     = inr (PyTuple [PyInt 1; PyInt 2; PyInt 3]).
Proof. split; reflexivity. Qed.

Lemma source_address_check_witness :
  truthy (PyList [PyStr "10.0.0.1"; PyInt 0]) = true
  /\ isinstance_str (PyList [PyStr "10.0.0.1"; PyInt 0]) = false
  /\ isinstance_tuple (PyList [PyStr "10.0.0.1"; PyInt 0]) = false
  /\ init_source_address (PyList [PyStr "10.0.0.1"; PyInt 0]) = inl TypeError.
Proof.
  assert (truthy (PyList [PyStr "10.0.0.1"; PyInt 0]) = true
          /\ isinstance_str (PyList [PyStr "10.0.0.1"; PyInt 0]) = false
          /\ isinstance_tuple (PyList [PyStr "10.0.0.1"; PyInt 0]) = false)
    as Hshape by (repeat split).
  destruct Hshape as (Ht & Hs & Htu).
  exact (conj Ht (conj Hs (conj Htu
           (proj2 (proj1 (source_address_check
                            (PyList [PyStr "10.0.0.1"; PyInt 0])))
                  (conj Ht (conj Hs Htu)))))).
Defined.
End AdapterClaims.

(* ===================================================================== *)
(** ** The properties on concrete calls                                   *)
(* ===================================================================== *)

Section Runs.
Import Scripted.

(** C4, as stated, fails: with the default ceiling of one request, the
    request a solver sends while its own call is still counted is
    dispatched with two requests in flight. *)
Lemma nested_dispatch_exceeds_ceiling :
  let w := world [inr (challenge "turnstile")] [] in
  let r := get 5 plain w in
  reachable w
  /\ max_concurrent_requests (session w) = 1
  /\ outcome r = Return (ok "page")
  /\ in_flight_at_dispatch (events r) = [1; 2]
  /\ ~ Forall (fun c => c <= max_concurrent_requests (session w))
              (in_flight_at_dispatch (events r)).
Proof.
  cbv zeta. split; [apply reachable_init|].
  split; [reflexivity|]. split; [by vm_compute|].
  split; [by vm_compute|].
  intros H. vm_compute in H.
  apply Forall_cons_1 in H as [_ H]. apply Forall_cons_1 in H as [H _].
  by apply H.
Qed.

Lemma loop_protection_raises_witness :
  let w := depth_set 3 (world [] []) in
  solveDepth (session w) <= depth w
  /\ outcome (response_phase 4 "GET" url plain w) = Return (ok "page", plain)
  /\ outcome (request 5 "GET" url plain w) = Raise (CloudflareLoopProtection (depth w))
  /\ depth (final (request 5 "GET" url plain w)) = 0
  /\ events (request 5 "GET" url plain w)
     = events (response_phase 4 "GET" url plain w).
Proof.
  cbv zeta.
  assert (solveDepth (session (depth_set 3 (world [] [])))
          <= depth (depth_set 3 (world [] []))) as Hd by (by vm_compute).
  assert (outcome (response_phase 4 "GET" url plain (depth_set 3 (world [] [])))
          = Return (ok "page", plain)) as Ho by (by vm_compute).
  exact (conj Hd (conj Ho
           (loop_protection_raises 4 "GET" url plain _ _ _ Hd Ho))).
Defined.

Lemma depth_reset_on_plain_response_witness :
  let w := depth_set 2 (world [] []) in
  let r := request 5 "GET" url plain w in
  outcome (response_phase 4 "GET" url plain w) = Return (ok "page", plain)
  /\ first_match (session w) (ok "page") = None
  /\ depth (final r) = 0
  /\ outcome r = (if solveDepth (session w) <=? depth w
                  then Raise (CloudflareLoopProtection (depth w))
                  else Return (ok "page"))
  /\ events r = events (response_phase 4 "GET" url plain w).
Proof.
  cbv zeta.
  assert (outcome (response_phase 4 "GET" url plain (depth_set 2 (world [] [])))
          = Return (ok "page", plain)) as Ho by (by vm_compute).
  assert (first_match (session (depth_set 2 (world [] []))) (ok "page") = None)
    as Hn by (by vm_compute).
  exact (conj Ho (conj Hn
           (depth_reset_on_plain_response 4 "GET" url plain _ _ _ Ho Hn
              eq_refl ltac:(discriminate) ltac:(discriminate)))).
Defined.

Lemma first_match_is_solved_witness :
  let w := world [inr (challenge "v2")] [] in
  let before := final (response_phase 4 "GET" url plain w) in
  let entered := depth_set (depth w + 1) before in
  let solving := run_solver (request 4) (solver_of V2_JS (challenge "v2") plain)
                            entered in
  let r := request 5 "GET" url plain w in
  outcome (response_phase 4 "GET" url plain w) = Return (challenge "v2", plain)
  /\ depth w < solveDepth (session w)
  /\ first_match (session w) (challenge "v2") = Some V2_JS
  /\ outcome r = outcome solving
  /\ events r = events (response_phase 4 "GET" url plain w)
                ++ EvSolve V2_JS (depth w + 1) :: events solving.
Proof.
  cbv zeta.
  assert (outcome (response_phase 4 "GET" url plain
                     (world [inr (challenge "v2")] []))
          = Return (challenge "v2", plain)) as Ho by (by vm_compute).
  assert (depth (world [inr (challenge "v2")] [])
          < solveDepth (session (world [inr (challenge "v2")] []))) as Hd
    by (by vm_compute).
  assert (first_match (session (world [inr (challenge "v2")] []))
                      (challenge "v2") = Some V2_JS) as Hv by (by vm_compute).
  pose proof (first_match_is_solved 4 "GET" url plain _ _ _ _ Ho Hd Hv) as H.
  cbv zeta in H.
  exact (conj Ho (conj Hd (conj Hv
           (conj (proj1 (proj2 (proj2 (proj2 (proj2 H)))))
                 (proj1 (proj2 (proj2 (proj2 (proj2 (proj2 H)))))))))).
Defined.

Lemma in_flight_balanced_witness :
  let w := world [inr (challenge "turnstile")] [] in
  0 <= in_flight w
  /\ outcome (get 5 plain w) <> Diverge
  /\ in_flight (final (get 5 plain w)) = in_flight w
  /\ Forall (Z.lt (in_flight w)) (in_flight_at_dispatch (events (get 5 plain w)))
  /\ (throttle_gate plain w = true ->
      in_flight w + 1 <= max_concurrent_requests (session w)).
Proof.
  cbv zeta.
  assert (0 <= in_flight (world [inr (challenge "turnstile")] [])) as Hw
    by (by vm_compute).
  assert (outcome (get 5 plain (world [inr (challenge "turnstile")] []))
          <> Diverge) as Hnd by (by vm_compute).
  exact (conj Hw (conj Hnd
           (in_flight_balanced 5 "GET" url plain _ Hw Hnd))).
Defined.

Lemma throttle_only_top_level_witness :
  let w := world [inr (challenge "turnstile")] [] in
  0 <= in_flight w
  /\ outcome (get 5 plain w) <> Diverge
  /\ (In EvThrottle (events (get 5 plain w))
      <-> in_flight w = 0 /\ kw_skip_throttle plain = false)
  /\ (throttled (events (get 5 plain w)) <= 1)%nat
  /\ (0 < in_flight w -> ~ In EvThrottle (events (get 5 plain w))).
Proof.
  cbv zeta.
  assert (0 <= in_flight (world [inr (challenge "turnstile")] [])) as Hw
    by (by vm_compute).
  assert (outcome (get 5 plain (world [inr (challenge "turnstile")] []))
          <> Diverge) as Hnd by (by vm_compute).
  exact (conj Hw (conj Hnd
           (throttle_only_top_level 5 "GET" url plain _ Hw Hnd))).
Defined.

Lemma in_flight_never_negative_witness :
  let w := final (get 5 plain (world [inr (challenge "turnstile")] [])) in
  reachable w /\ 0 <= in_flight w.
Proof.
  cbv zeta.
  assert (reachable (final (get 5 plain (world [inr (challenge "turnstile")] []))))
    as Hr.
  { apply reachable_request; [apply reachable_init | by vm_compute]. }
  exact (conj Hr (proj1 (proj2 (proj2 in_flight_never_negative)) _ Hr)).
Defined.


Lemma proxy_feedback_witness :
  let w := world [inl ConnectionError] [one_proxy] in
  let kwargs1 := set_kw_proxies (Some one_proxy) plain in
  let ready := tracked (final (prepare 4 "GET" url plain w)) in
  let r := request 5 "GET" url plain w in
  outcome (prepare 4 "GET" url plain w) = Return kwargs1
  /\ outcome (pre_hook "GET" url kwargs1 ready) = Return ("GET"%string, url, kwargs1)
  /\ outcome r = Raise ConnectionError
  /\ events r = events (prepare 4 "GET" url plain w)
                ++ EvDispatch (in_flight ready) (kw_proxies kwargs1)
                   :: failure_report kwargs1
  /\ env (final r)
     = after_report report_failure kwargs1
         (perform_request (session ready) "GET" url kwargs1 (env ready)).2.
Proof.
  cbv zeta.
  assert (outcome (prepare 4 "GET" url plain
                     (world [inl ConnectionError] [one_proxy]))
          = Return (set_kw_proxies (Some one_proxy) plain)) as Hp
    by (by vm_compute).
  assert (outcome (pre_hook "GET" url (set_kw_proxies (Some one_proxy) plain)
                     (tracked (final (prepare 4 "GET" url plain
                                        (world [inl ConnectionError] [one_proxy])))))
          = Return ("GET"%string, url, set_kw_proxies (Some one_proxy) plain))
    as Hh by reflexivity.
  pose proof (proxy_feedback 4 "GET" url plain _ _ _ _ _ Hp Hh) as H.
  cbv zeta in H.
  exact (conj Hp (conj Hh (proj1 H ConnectionError eq_refl eq_refl))).
Defined.
End Runs.

(* ===================================================================== *)
(** ** More on [request]: errors, hooks and the throttle's edge cases     *)
(* ===================================================================== *)

Section RequestEdges.
Context {Env : Type} `{!Collaborators Env}.
Implicit Types (w : World Env) (kwargs : Kwargs).

(** An error on the way to the response ends the call: the [finally]
    clause runs and nothing is retried. *)
Lemma request_after_failure fuel method url kwargs w kwargs1 e :
  outcome (prepare fuel method url kwargs w) = Return kwargs1 ->
  let ready := tracked (final (prepare fuel method url kwargs w)) in
  outcome (obtain_response method url kwargs1 ready) = Raise e ->
  request (S fuel) method url kwargs w =
  {| outcome := Raise e;
     final := released (final (obtain_response method url kwargs1 ready));
     events := events (prepare fuel method url kwargs w)
               ++ events (obtain_response method url kwargs1 ready) |}.
Proof.
  intros Hprep ready Hob. simpl request. unfold request_call.
  rewrite run_bind, Hprep. cbn [outcome final events].
  rewrite run_bind. cbn [modify_session outcome final events app].
  fold (tracked (final (prepare fuel method url kwargs w))). fold ready.
  assert (attempt (request fuel) method url kwargs1 ready
          = {| outcome := Raise e;
               final := final (obtain_response method url kwargs1 ready);
               events := events (obtain_response method url kwargs1 ready) |})
    as Hat by (unfold attempt; by rewrite run_bind, Hob).
  unfold try_finally. rewrite Hat. reflexivity.
Qed.

Lemma obtain_response_pre_hook_raises method url kwargs w e :
  outcome (pre_hook method url kwargs w) = Raise e ->
  obtain_response method url kwargs w
  = {| outcome := Raise e; final := w; events := [] |}.
Proof.
  intros Hpre. unfold obtain_response. rewrite run_bind.
  destruct (pre_hook_run method url kwargs w) as (o & Heq & _).
  rewrite Heq in Hpre |- *. cbn [outcome final events] in Hpre |- *.
  by subst o.
Qed.


Lemma in_flight_released_tracked w :
  0 <= in_flight w -> in_flight (released (tracked w)) = in_flight w.
Proof.
  unfold in_flight, released, tracked, release, track. cbn [session].
  intros Hw. cbn.
  replace (0 <? current_concurrent_requests (session w) + 1) with true by lia.
  cbn. lia.
Qed.

(** [prepare] changes the recorded dispatch time and the remembered
    proxies, nothing else. *)
Lemma prepare_keeps {X} (f : Session -> X) fuel method url kwargs w :
  (forall t s, f (set_last_request_time t s) = f s) ->
  (forall p s, f (set_proxies p s) = f s) ->
  f (session (final (prepare fuel method url kwargs w))) = f (session w).
Proof.
  intros Hlast Hprox.
  assert (forall A (m : M Env A) E,
             respects (keeps f) E m -> respects (keeps f) any_event m) as Hany.
  { intros A m E Hm. eapply respects_weaken, Hm; [auto | done]. }
  pose proof (Hany _ _ _ (resolve_proxies_respects f (pop_skip_throttle kwargs) Hprox))
    as Hres.
  pose proof (fun kw => Hany _ _ _ (stealth_respects f method url kw)) as Hst.
  pose proof (Hany _ _ _ (throttling_respects f fuel Hlast)) as Hthr.
  assert (respects (keeps f) any_event (prepare fuel method url kwargs : M Env Kwargs))
    as Hp by (unfold prepare; respects_auto).
  exact (proj1 (Hp w)).
Qed.

(** X1: a pre-hook that raises.  Nothing is dispatched, the hook's error is
    the call's error, the call was counted in [request_count] and is
    counted out of the in-flight counter. *)
Theorem pre_hook_error_stops_the_call fuel method url kwargs w kwargs1 e :
  0 <= in_flight w ->
  outcome (prepare fuel method url kwargs w) = Return kwargs1 ->
  outcome (pre_hook method url kwargs1
             (tracked (final (prepare fuel method url kwargs w)))) = Raise e ->
  let r := request (S fuel) method url kwargs w in
  outcome r = Raise e
  /\ in_flight_at_dispatch (events r) = []
  /\ events r = events (prepare fuel method url kwargs w)
  /\ in_flight (final r) = in_flight w
  /\ request_count (session (final r)) = request_count (session w) + 1.
Proof.
  intros Hw Hprep Hpre. cbv zeta.
  pose proof (obtain_response_pre_hook_raises _ _ _ _ _ Hpre) as Hob.
  rewrite (request_after_failure fuel method url kwargs w kwargs1 e Hprep)
    by (by rewrite Hob).
  rewrite Hob. cbn [outcome final events]. rewrite app_nil_r.
  destruct (prepare_effect fuel method url kwargs 0 w Hw) as (Hs & _ & _ & _);
    [by rewrite Hprep|].
  pose proof (prepare_events fuel method url kwargs w) as Hq.
  assert (request_count (session (final (prepare fuel method url kwargs w)))
          = request_count (session w)) as Hrc.
  { by apply prepare_keeps. }
  repeat split.
  - unfold in_flight_at_dispatch.
    induction Hq as [|ev evs Hev _ IH]; [done|]. by destruct ev.
  - rewrite in_flight_released_tracked.
    + unfold in_flight, stable in *. congruence.
    + unfold in_flight, stable in *.
      replace (current_concurrent_requests
                 (session (final (prepare fuel method url kwargs w))))
        with (current_concurrent_requests (session w)) by congruence.
      exact Hw.
  - unfold released, tracked, release, track. cbn [session].
    destruct (0 <? _); cbn; lia.
Qed.


(** X3: with no room under the ceiling ([max_concurrent_requests] at or
    below the in-flight counter, as with a ceiling of 0), a call that goes
    through the throttle never returns, however long it runs: the loop of
    the throttle waits for a counter that only this call could change. *)
Theorem throttle_without_room_never_returns fuel method url kwargs w :
  max_concurrent_requests (session w) <= in_flight w ->
  throttle_gate kwargs w = true ->
  outcome (request fuel method url kwargs w) = Diverge.
Proof.
  intros Hroom Hg. destruct fuel as [|fuel]; [reflexivity|].
  simpl request. unfold request_call. rewrite run_bind.
  assert (outcome (prepare fuel method url kwargs w) = Diverge) as ->;
    [|reflexivity].
  unfold throttle_gate, in_flight in Hg.
  unfold prepare. rewrite run_bind.
  cbn [outcome final events get_session app session]. rewrite Hg.
  rewrite run_bind.
  change (outcome ((emit EvThrottle;; _apply_request_throttling fuel) w))
    with (outcome (_apply_request_throttling fuel w)).
  by rewrite throttling_stuck.
Qed.

Lemma sleep_positive d :
  (0 < d)%Q ->
  respects (keeps (fun _ => tt)) Bounds.positive_sleep (sleep d : M Env unit).
Proof.
  intros Hd. unfold sleep. apply respects_bind; [exact _ | |].
  - apply respects_emit; [exact _ | exact Hd].
  - intros _. apply respects_extern. exact _.
Qed.

Lemma wait_for_slot_positive fuel :
  respects (keeps (fun _ => tt)) Bounds.positive_sleep
           (wait_for_slot fuel : M Env unit).
Proof.
  pose proof (sleep_positive (1 # 10) eq_refl) as Hnap.
  induction fuel as [|fuel IH]; simpl; respects_auto.
Qed.

(** X4: the throttle never asks [time.sleep] for a negative or a zero
    time: the wait for the interval is asked for only when something of
    the interval is left, and the poll of the ceiling is a fixed tenth of a
    second.  This holds when the clock has gone backwards as well. *)
Theorem throttle_sleeps_are_positive fuel w :
  Forall Bounds.positive_sleep (events (_apply_request_throttling fuel w)).
Proof.
  pose proof (wait_for_slot_positive fuel) as Hwait.
  unfold _apply_request_throttling, now.
  rewrite run_bind. cbn [extern outcome final events app].
  rewrite run_bind. cbn [get_session outcome final events app session].
  set (elapsed := ((time_time (env w)).1 - last_request_time (session w))%Q).
  assert (forall d, (0 < d)%Q ->
            respects (keeps (fun _ => tt)) Bounds.positive_sleep
              (sleep d;; wait_for_slot fuel;;
               t ← extern time_time; modify_session (set_last_request_time t)
               : M Env unit)) as Hslept.
  { intros d Hd. pose proof (sleep_positive d Hd). respects_auto. }
  assert (respects (keeps (fun _ => tt)) Bounds.positive_sleep
            (mret tt;; wait_for_slot fuel;;
             t ← extern time_time; modify_session (set_last_request_time t)
             : M Env unit)) as Hnot by respects_auto.
  destruct (Qltb elapsed (min_request_interval (session w))) eqn:Hlt.
  - apply Qltb_true in Hlt. apply Hslept. lra.
  - apply Hnot.
Qed.

(** Up to the response, the call changes the recorded dispatch time, the
    remembered proxies and the two request counters, nothing else. *)
Lemma response_phase_frame {X} (f : Session -> X) fuel method url kwargs w :
  (forall t s, f (set_last_request_time t s) = f s) ->
  (forall p s, f (set_proxies p s) = f s) ->
  (forall s, f (track s) = f s) ->
  f (session (final (response_phase fuel method url kwargs w))) = f (session w).
Proof.
  intros Hlast Hprox Htrack. unfold response_phase. rewrite run_bind.
  pose proof (prepare_keeps f fuel method url kwargs w Hlast Hprox) as Hp.
  destruct (outcome (prepare fuel method url kwargs w)) as [kwargs1| |];
    cbn [outcome final events]; [| done | done].
  rewrite run_bind. cbn [modify_session outcome final events].
  match goal with |- context [obtain_response ?m ?u ?k ?w1] =>
    destruct (obtain_response_spec m u k w1) as (-> & _ & _) end.
  cbn [session]. by rewrite Htrack.
Qed.

Lemma pass_through_run response w :
  pass_through response w =
  {| outcome := Return response;
     final :=
       {| session :=
            if negb (is_redirect response)
               && negb ((status_code response =? 429)
                        || (status_code response =? 503))
            then
              if (status_code response =? 200)
                 && negb (_in_403_retry (session w))
              then set_403_retry_count 0 (set_solveDepthCnt 0 (session w))
              else set_solveDepthCnt 0 (session w)
            else session w;
          env := env w |};
     events := [] |}.
Proof.
  unfold pass_through. run_steps.
  destruct (negb (is_redirect response)
            && negb ((status_code response =? 429)
                     || (status_code response =? 503))); run_steps.
  - destruct ((status_code response =? 200) && negb (_in_403_retry (session w)));
      reflexivity.
  - by destruct w.
Qed.

(** Below the depth limit, a response that matches no enabled variant is
    handed back, whatever its status. *)
Lemma plain_response_run fuel method url kwargs w response kwargs' :
  outcome (response_phase fuel method url kwargs w) = Return (response, kwargs') ->
  depth w < solveDepth (session w) ->
  first_match (session w) response = None ->
  request (S fuel) method url kwargs w =
  {| outcome := Return response;
     final := released (final (pass_through response
                (final (response_phase fuel method url kwargs w))));
     events := events (response_phase fuel method url kwargs w) |}.
Proof.
  intros Ho Hd Hnone.
  rewrite (request_after_response _ _ _ _ _ _ _ Ho).
  destruct (response_phase_keeps fuel method url kwargs w) as [Hs Hk].
  cbv zeta in Hs, Hk.
  assert (solveDepth (session (final (response_phase fuel method url kwargs w)))
          = solveDepth (session w)) as Hlim.
  { unfold setup in Hs. by injection Hs. }
  unfold finished, conclude. rewrite run_bind, loop_protection_run, Hlim, Hk.
  replace (solveDepth (session w) <=? depth w) with false by lia.
  cbn [outcome final events app].
  rewrite classify_run, (first_match_setup _ _ _ Hs), Hnone.
  rewrite pass_through_run. cbn [outcome final events].
  by rewrite app_nil_r.
Qed.

Lemma released_keeps {X} (f : Session -> X) w :
  (forall v s, f (set_current_concurrent_requests v s) = f s) ->
  f (session (released w)) = f (session w).
Proof.
  intros Hf. unfold released, release. cbn [session].
  by destruct (0 <? current_concurrent_requests (session w)).
Qed.

(** X5: a redirect, a 429 and a 503 that match no enabled variant are handed
    back like any other response, but they reset nothing: the depth counter
    and the 403 retry counter keep their values. *)
Theorem backoff_response_keeps_counters
        fuel method url kwargs w response kwargs' :
  outcome (response_phase fuel method url kwargs w) = Return (response, kwargs') ->
  depth w < solveDepth (session w) ->
  first_match (session w) response = None ->
  is_redirect response = true
  \/ status_code response = 429 \/ status_code response = 503 ->
  let r := request (S fuel) method url kwargs w in
  outcome r = Return response
  /\ depth (final r) = depth w
  /\ _403_retry_count (session (final r)) = _403_retry_count (session w).
Proof.
  intros Ho Hd Hnone Hback. cbv zeta.
  rewrite (plain_response_run _ _ _ _ _ _ _ Ho Hd Hnone).
  cbn [outcome final events]. split; [done|].
  unfold depth.
  rewrite !released_keeps by done.
  rewrite pass_through_run. cbn [final session].
  replace (negb (is_redirect response)
           && negb ((status_code response =? 429)
                    || (status_code response =? 503))) with false.
  - split.
    + apply (proj2 (response_phase_keeps fuel method url kwargs w)).
    + by apply response_phase_frame.
  - destruct Hback as [-> | [-> | ->]]; [done | |];
      by rewrite andb_false_r.
Qed.

(** X6: the 403 retry counter goes back to 0 exactly on a response of
    status 200 that is neither a challenge nor a redirect, and only while
    the session is not in a 403 retry ([_in_403_retry] not set); every
    other response handed back leaves it as it is. *)
Theorem retry_counter_after_plain_response
        fuel method url kwargs w response kwargs' :
  outcome (response_phase fuel method url kwargs w) = Return (response, kwargs') ->
  depth w < solveDepth (session w) ->
  first_match (session w) response = None ->
  let r := request (S fuel) method url kwargs w in
  _403_retry_count (session (final r))
  = if negb (is_redirect response)
       && (status_code response =? 200)
       && negb (_in_403_retry (session w))
    then 0
    else _403_retry_count (session w).
Proof.
  intros Ho Hd Hnone. cbv zeta.
  rewrite (plain_response_run _ _ _ _ _ _ _ Ho Hd Hnone).
  cbn [outcome final events].
  rewrite released_keeps by done.
  rewrite pass_through_run. cbn [final session].
  assert (_in_403_retry (session (final (response_phase fuel method url kwargs w)))
          = _in_403_retry (session w)) as -> by (by apply response_phase_frame).
  assert (_403_retry_count
            (session (final (response_phase fuel method url kwargs w)))
          = _403_retry_count (session w)) as Hkeep
    by (by apply response_phase_frame).
  destruct (is_redirect response); cbn [negb andb]; [exact Hkeep|].
  destruct (Z.eqb_spec (status_code response) 200) as [H200|Hn200].
  - rewrite H200. cbn [Z.eqb orb negb andb].
    change (200 =? 429) with false. change (200 =? 503) with false.
    cbn [orb negb andb].
    by destruct (_in_403_retry (session w)).
  - cbn [andb].
    by destruct (negb ((status_code response =? 429)
                       || (status_code response =? 503))).
Qed.

(** X7: what is tested for challenges and handed back is the answer of the
    post-hook, not the response of the transport: when the hook gives a
    response that matches no enabled variant, the call returns that
    response and enters no solver, whatever the transport had answered. *)
Theorem post_hook_response_is_returned
        fuel method url kwargs w kwargs1 method' url' kwargs2 raw hook new_resp :
  outcome (prepare fuel method url kwargs w) = Return kwargs1 ->
  let ready := tracked (final (prepare fuel method url kwargs w)) in
  outcome (pre_hook method url kwargs1 ready) = Return (method', url', kwargs2) ->
  (perform_request (session ready) method' url' kwargs2 (env ready)).1 = inr raw ->
  requestPostHook = Some hook ->
  hook (session ready) (decodeBrotli raw) = inr new_resp ->
  depth w < solveDepth (session w) ->
  first_match (session w) new_resp = None ->
  let r := request (S fuel) method url kwargs w in
  outcome r = Return new_resp
  /\ Bounds.solver_depths (events r) = [].
Proof.
  intros Hprep. cbv zeta.
  remember (tracked (final (prepare fuel method url kwargs w))) as ready
    eqn:Hready.
  intros Hpre Hans Hhook Hnew Hd Hnone.
  assert (outcome (response_phase fuel method url kwargs w)
          = Return (new_resp, kwargs2)) as Ho.
  { unfold response_phase. rewrite run_bind, Hprep. cbn [outcome final events].
    rewrite run_bind. cbn [modify_session outcome final events app].
    fold (tracked (final (prepare fuel method url kwargs w))).
    rewrite <- Hready.
    unfold obtain_response. rewrite run_bind.
    destruct (pre_hook_run method url kwargs1 ready) as (o & Heq & _).
    rewrite Heq in Hpre |- *. cbn [outcome final events] in Hpre |- *. subst o.
    rewrite run_bind, dispatch_run. cbv zeta. rewrite Hans.
    cbn [outcome final events]. rewrite run_bind.
    unfold post_hook. rewrite Hhook. run_steps. by rewrite Hnew. }
  rewrite (plain_response_run _ _ _ _ _ _ _ Ho Hd Hnone).
  cbn [outcome final events]. split; [done|].
  assert (Forall (fun ev => match ev with EvSolve _ _ => False | _ => True end)
                 (events (response_phase fuel method url kwargs w))) as Hq.
  { unfold response_phase. rewrite run_bind.
    pose proof (prepare_events fuel method url kwargs w) as Hpe.
    destruct (outcome (prepare fuel method url kwargs w));
      cbn [outcome final events].
    - rewrite run_bind. cbn [modify_session outcome final events app].
      apply Forall_app. split.
      + eapply Forall_impl; [exact Hpe|]. by intros [].
      + match goal with |- context [obtain_response ?m ?u ?k ?w1] =>
          destruct (obtain_response_spec m u k w1) as (_ & Hev & _) end.
        eapply Forall_impl; [exact Hev|]. by intros [].
    - eapply Forall_impl; [exact Hpe|]. by intros [].
    - eapply Forall_impl; [exact Hpe|]. by intros []. }
  unfold Bounds.solver_depths.
  induction Hq as [|ev evs Hev _ IH]; [done|]. by destruct ev.
Qed.
End RequestEdges.

(* ===================================================================== *)
(** ** The depth counter stays within the limit                           *)
(* ===================================================================== *)

Section DepthBound.
Import Bounds.
Context {Env : Type} `{!Collaborators Env}.
Implicit Types (w : World Env) (kwargs : Kwargs)
         (rq : string -> string -> Kwargs -> M Env Response).








End DepthBound.

(* ===================================================================== *)
(** ** The proxies of a call                                              *)
(* ===================================================================== *)

Section ProxyResolution.
Context {Env : Type} `{!Collaborators Env}.
Implicit Types (w : World Env) (kwargs : Kwargs).

(** The proxies a call leaves on the session. *)
Lemma resolve_proxies_session kwargs w :
  proxies (session (final (resolve_proxies kwargs w)))
  = match kw_proxies kwargs with
    | Some p => if bool_decide (p = ∅) then proxies (session w) else p
    | None => proxies (session w)
    end.
Proof.
  unfold resolve_proxies. run_steps.
  destruct (kw_proxies kwargs) as [p|]; cbn.
  - case_bool_decide as Hp; cbn.
    + by destruct (proxy_manager_proxies (env w)).
    + unfold python_ne. case_bool_decide as Hne; cbn; [by symmetry | done].
  - by destruct (proxy_manager_proxies (env w)).
Qed.

Lemma resolve_proxies_returns kwargs w :
  exists kwargs1, outcome (resolve_proxies kwargs w) = Return kwargs1
  /\ (truthy (kw_proxies kwargs) = true -> kwargs1 = kwargs).
Proof.
  unfold resolve_proxies. run_steps.
  destruct (kw_proxies kwargs) as [p|] eqn:Hkw; cbn.
  - case_bool_decide as Hp; cbn.
    + destruct (proxy_manager_proxies (env w)); cbn; eexists; by split.
    + destruct (python_ne p (proxies (session w))); cbn; by eexists.
  - destruct (proxy_manager_proxies (env w)); cbn; by eexists.
Qed.

(** X9: proxies passed to one call stay on the session.  When a call gets
    through its preparation, the session's [proxies] are the ones the
    caller passed, if they were a dictionary that is not empty, and are
    left alone otherwise: a proxy taken from the proxy manager is never
    written to the session.  With stealth off, the keywords of a call that
    names its proxies reach the transport as the caller gave them, less
    the private throttle flag. *)
Theorem caller_proxies_are_remembered fuel method url kwargs w kwargs1 :
  outcome (prepare fuel method url kwargs w) = Return kwargs1 ->
  proxies (session (final (prepare fuel method url kwargs w)))
  = match kw_proxies kwargs with
    | Some p => if bool_decide (p = ∅) then proxies (session w) else p
    | None => proxies (session w)
    end
  /\ (enable_stealth (session w) = false ->
      truthy (kw_proxies kwargs) = true ->
      kwargs1 = pop_skip_throttle kwargs).
Proof.
  pose proof (fun kw => stealth_respects proxies method url kw) as Hst.
  pose proof (fun kw => stealth_respects enable_stealth method url kw) as Hst'.
  unfold prepare. rewrite run_bind.
  cbn [outcome final events get_session app session].
  rewrite run_bind.
  match goal with |- context [outcome (?m w)] =>
    assert (respects (keeps (fun s => (proxies s, enable_stealth s))) any_event m)
      as Hgate
  end.
  { pose proof (throttling_respects (fun s => (proxies s, enable_stealth s)) fuel
                  (fun _ _ => eq_refl)) as Hthr.
    assert (respects (keeps (fun s => (proxies s, enable_stealth s))) any_event
              (_apply_request_throttling fuel : M Env unit)) as Hthr'
      by (eapply respects_weaken, Hthr; [auto | done]).
    respects_auto. }
  match goal with |- context [outcome (?m w)] =>
    pose proof (proj1 (Hgate w)) as Hkeep;
    destruct (outcome (m w)) as [[]| |]; cbn [outcome final events];
      [|done|done];
    set (w0 := final (m w)) in *
  end.
  rewrite run_bind.
  pose proof (resolve_proxies_session (pop_skip_throttle kwargs) w0) as Hsess.
  destruct (resolve_proxies_returns (pop_skip_throttle kwargs) w0)
    as (kwargs0 & Hret & Hsame).
  rewrite Hret. cbn [outcome final events].
  unfold keeps in Hkeep. injection Hkeep as Hk1 Hk2.
  intros Hout. split.
  - rewrite (proj1 (Hst kwargs0 _)), Hsess.
    change (kw_proxies (pop_skip_throttle kwargs)) with (kw_proxies kwargs).
    by rewrite Hk1.
  - intros Hoff Htruthy.
    rewrite <- (Hsame Htruthy).
    revert Hout. unfold stealth. run_steps.
    assert (enable_stealth (session (final (resolve_proxies (pop_skip_throttle kwargs) w0)))
            = false) as ->.
    { pose proof (resolve_proxies_respects enable_stealth (pop_skip_throttle kwargs)
                    (fun _ _ => eq_refl)) as Hres.
      rewrite (proj1 (Hres w0)), <- Hoff. exact Hk2. }
    cbn. by intros [= <-].
Qed.
End ProxyResolution.

(* ===================================================================== *)
(** ** Session health: [_should_refresh_session], [_refresh_session]      *)
(* ===================================================================== *)

Section HealthFacts.
Import SessionHealth.
Context {Env : Type} `{!Collaborators Env} `{!Identity Env}.
Implicit Types (s : Session) (h : Health) (e : Env).

Lemma Qltb_intro x y : (x < y)%Q -> Qltb x y = true.
Proof.
  intros H. destruct (Qltb x y) eqn:Hb; [done|].
  apply Qltb_false in Hb. lra.
Qed.

Lemma Qltb_elim x y : (y <= x)%Q -> Qltb x y = false.
Proof.
  intros H. destruct (Qltb x y) eqn:Hb; [|done].
  apply Qltb_true in Hb. lra.
Qed.

(** What a refresh writes, whatever happens in it. *)
Lemma refresh_health url s h e :
  let r := _refresh_session url s h e in
  session_after r = set_request_count 0 s
  /\ session_start_time (health_after r) = (time_time e).1
  /\ last_403_time (health_after r) = last_403_time h
  /\ session_refresh_interval (health_after r) = session_refresh_interval h.
Proof.
  cbv zeta. unfold _refresh_session.
  destruct (loadUserAgent (time_time e).2) as [[raised|] e1]; cbn; [done|].
  destruct (base_url url) as [raised|base]; cbn; [done|].
  destruct (perform_request _ _ _ _ _) as [[raised|test_response] e2]; by cbn.
Qed.

(** X10: a refresh resets the tracking on every path.  Also when the user
    agent cannot be loaded, the URL cannot be parsed or the test request
    raises (and [False] is returned), the request count is 0 and the
    session's start is the time read at the refresh; the time of the last
    403, the refresh interval and every other attribute of the session
    that [request] works with are as before.  When [True] is returned, the
    transport answered the test request with one of the four statuses. *)
Theorem refresh_resets_tracking url s h e :
  let r := _refresh_session url s h e in
  request_count (session_after r) = 0
  /\ session_start_time (health_after r) = (time_time e).1
  /\ last_403_time (health_after r) = last_403_time h
  /\ session_after r = set_request_count 0 s
  /\ (success r = true ->
      exists base test_response,
        base_url url = inr base
        /\ (perform_request (set_request_count 0 s) "GET" base baseline_kwargs
              (loadUserAgent (time_time e).2).2).1 = inr test_response
        /\ status_code test_response ∈ [200; 301; 302; 304]).
Proof.
  cbv zeta. destruct (refresh_health url s h e) as (Hs & Ht & H403 & _).
  rewrite Hs. repeat split; try done.
  unfold _refresh_session.
  destruct (loadUserAgent (time_time e).2) as [[raised|] e1]; cbn; [done|].
  destruct (base_url url) as [raised|base]; cbn; [done|].
  destruct (perform_request _ _ _ _ _) as [[raised|test_response] e2] eqn:Hreq;
    cbn; [done|].
  intros Hok. exists base, test_response. rewrite Hreq.
  repeat split. by apply bool_decide_eq_true_1 in Hok.
Qed.

(** X11: a refreshed session is not due again at once.  After a refresh,
    successful or not, [_should_refresh_session] answers [False] at any
    time within the refresh interval of the refresh, as long as there is no
    403 on record in the last minute. *)
Theorem refreshed_session_is_fresh url s h e e' :
  ((time_time e').1 - (time_time e).1 <= session_refresh_interval h)%Q ->
  (last_403_time h <= 0 \/ 60 <= (time_time e').1 - last_403_time h)%Q ->
  (_should_refresh_session (health_after (_refresh_session url s h e)) e').1
  = false.
Proof.
  intros Hage H403.
  destruct (refresh_health url s h e) as (_ & Ht & Hl & Hi).
  unfold _should_refresh_session, should_refresh_at. cbn [fst].
  rewrite Ht, Hl, Hi. rewrite Qltb_elim by done.
  destruct H403 as [Hnone|Hold].
  - by rewrite (Qltb_elim 0) by done.
  - rewrite (Qltb_elim _ 60) by done. by rewrite andb_false_r.
Qed.

(** X12: a refresh does not forget a 403.  [_refresh_session] leaves
    [last_403_time] as it is, so for the minute after a 403
    [_should_refresh_session] keeps answering [True], however often and
    however well the session is refreshed in between. *)
Theorem refresh_keeps_recent_403 url s h e e' :
  (0 < last_403_time h)%Q ->
  ((time_time e').1 - last_403_time h < 60)%Q ->
  (_should_refresh_session (health_after (_refresh_session url s h e)) e').1
  = true.
Proof.
  intros Hpos Hrecent.
  destruct (refresh_health url s h e) as (_ & _ & Hl & _).
  unfold _should_refresh_session, should_refresh_at. cbn [fst].
  rewrite Hl. rewrite (Qltb_intro 0), (Qltb_intro _ 60) by done.
  by destruct (Qltb _ _).
Qed.

End HealthFacts.

(* ===================================================================== *)
(** ** The tokens of [get_tokens]                                         *)
(* ===================================================================== *)

Section TokenFacts.
Import CookieJar Tokens.
Implicit Types (j : jar) (d domain name : string).

Lemma find_none_forall {A} (f : A -> bool) (l : list A) :
  List.find f l = None -> Forall (fun x => f x = false) l.
Proof.
  induction l as [|x l IH]; simpl; [constructor|].
  destruct (f x) eqn:Hx; [done|]. intros H. constructor; auto.
Qed.

Lemma find_some_elem {A} (f : A -> bool) (l : list A) x :
  List.find f l = Some x -> x ∈ l /\ f x = true.
Proof.
  induction l as [|y l IH]; simpl; [done|].
  destruct (f y) eqn:Hy.
  - intros [= <-]. split; [left | done].
  - intros H. destruct (IH H). split; [by right | done].
Qed.

Lemma select_cookie_domain_elem (domains : list string) domain d :
  select_cookie_domain domains domain = inr d -> d ∈ domains.
Proof.
  unfold select_cookie_domain.
  destruct (List.find (dotted_match domain) domains) as [d0|] eqn:Hdot.
  - intros [= <-]. by apply find_some_elem in Hdot as [Hin _].
  - destruct (List.find (fun d => String.eqb d domain) domains) as [d0|] eqn:Hsame;
      [|intros H; discriminate H].
    intros [= <-]. by apply find_some_elem in Hsame as [Hin _].
Qed.

(** X13: the domain [get_tokens] reads its cookies from.  It is a domain of
    the jar that passes the dotted test or is the host itself; a domain
    that passes the dotted test is taken before the host, wherever the two
    stand in the jar; and [CloudflareIUAMError] is raised exactly when no
    domain of the jar passes either test. *)
Theorem select_cookie_domain_spec (domains : list string) domain :
  match select_cookie_domain domains domain with
  | inr d =>
      d ∈ domains
      /\ (dotted_match domain d = true \/ d = domain)
      /\ (Exists (fun d' => dotted_match domain d' = true) domains ->
          dotted_match domain d = true)
  | inl e =>
      e = OtherError "CloudflareIUAMError"
      /\ Forall (fun d => dotted_match domain d = false /\ d <> domain) domains
  end.
Proof.
  unfold select_cookie_domain.
  destruct (List.find (dotted_match domain) domains) as [d|] eqn:Hdot.
  - apply find_some_elem in Hdot as [Hin Hd]. auto.
  - apply find_none_forall in Hdot.
    destruct (List.find _ domains) as [d|] eqn:Hsame.
    + apply find_some_elem in Hsame as [Hin Hd].
      apply String.eqb_eq in Hd. repeat split; auto.
      intros Hex. apply Exists_exists in Hex as (d' & Hd' & Hm).
      rewrite Forall_forall in Hdot. by rewrite (Hdot d') in Hm.
    + apply find_none_forall in Hsame. split; [done|].
      rewrite Forall_forall in *. intros d Hd. split; [by apply Hdot|].
      intros ->. specialize (Hsame _ Hd). simpl in Hsame.
      by rewrite String.eqb_refl in Hsame.
Qed.

Lemma substring_here (d b : string) :
  String.substring 0 (String.length d) (d ++ b) = d.
Proof.
  induction d as [|c d IH]; simpl.
  - by destruct b.
  - by rewrite IH.
Qed.

Lemma substring_inside (a d b : string) :
  String.substring (String.length a) (String.length d) (a ++ d ++ b) = d.
Proof.
  induction a as [|c a IH]; [exact (substring_here d b) | simpl; exact IH].
Qed.

Lemma contains_inside (a d b : string) : contains d (a ++ d ++ b) = true.
Proof.
  unfold contains.
  destruct (String.index 0 d (a ++ d ++ b)) as [n|] eqn:Hi; [done|].
  destruct d as [|c d].
  - by destruct (a ++ EmptyString ++ b)%string.
  - exfalso.
    apply (String.index_correct3 0 (String.length a)) in Hi; [|done|lia].
    apply Hi, substring_inside.
Qed.

(** X14: the dotted test is a test on text.  A cookie domain that starts
    with a dot passes for a host as soon as it occurs anywhere inside the
    host's name with a dot put in front: the parent domains of the host
    pass, and so does a domain that is cut off in the middle of a label. *)
Theorem dotted_match_is_containment domain (a d b : string) :
  startswith_dot d = true ->
  ("." ++ domain)%string = (a ++ d ++ b)%string ->
  dotted_match domain d = true.
Proof.
  intros Hdot Heq. unfold dotted_match. rewrite Hdot, Heq.
  apply contains_inside.
Qed.

Lemma elem_of_cookie_values name d j v :
  v ∈ cookie_values name d j <-> exists path, j !! (d, path, name) = Some v.
Proof.
  unfold cookie_values. rewrite list_elem_of_fmap. split.
  - intros ([[[kd kp] kn] v'] & -> & Hin).
    apply list_elem_of_In, filter_In in Hin as [Hin Hf].
    apply list_elem_of_In, elem_of_map_to_list in Hin.
    apply andb_true_iff in Hf as [Hn Hd].
    apply String.eqb_eq in Hn, Hd. simpl in *. subst. by exists kp.
  - intros (path & Hj). exists ((d, path, name), v). split; [done|].
    apply list_elem_of_In, filter_In. split.
    + by apply list_elem_of_In, elem_of_map_to_list.
    + unfold name_of, domain_of. simpl. by rewrite !String.eqb_refl.
Qed.

Lemma get_value name d j v :
  get name EmptyString d j = inr v ->
  (v <> EmptyString -> exists path, j !! (d, path, name) = Some v)
  /\ (forall path v', j !! (d, path, name) = Some v' ->
                      v' <> EmptyString -> v = v').
Proof.
  unfold get.
  pose proof (elem_of_cookie_values name d j) as Hspec.
  destruct (cookie_values name d j) as [|v0 [|v1 vs]]; [| |done].
  - intros [= <-]. split; [done|].
    intros path v' Hj _. exfalso.
    assert (v' ∈ @nil string) as Hin by (apply Hspec; by exists path).
    by apply elem_of_nil in Hin.
  - intros [= <-].
    destruct (String.eqb_spec v0 EmptyString) as [->|Hne].
    + split; [done|]. intros path v' Hj Hv'.
      assert (v' ∈ [EmptyString]) as Hin by (apply Hspec; by exists path).
      apply list_elem_of_singleton in Hin. by subst.
    + split.
      * intros _. apply Hspec. by left.
      * intros path v' Hj _.
        assert (v' ∈ [v0]) as Hin by (apply Hspec; by exists path).
        by apply list_elem_of_singleton in Hin.
Qed.

Lemma collect_spec names d : forall j toks,
  collect names d j = inr toks ->
  (forall n v, (n, v) ∈ toks ->
     n ∈ names /\ v <> EmptyString /\ exists path, j !! (d, path, n) = Some v)
  /\ (forall n path v, n ∈ names -> j !! (d, path, n) = Some v ->
        v <> EmptyString -> (n, v) ∈ toks)
  /\ toks.*1 `sublist_of` names.
Proof.
  induction names as [|name names IH]; intros j toks; simpl.
  - intros [= <-]. repeat split.
    + by apply elem_of_nil in H.
    + by apply elem_of_nil in H.
    + by apply elem_of_nil in H.
    + intros n path v Hn. by apply elem_of_nil in Hn.
    + done.
  - destruct (get name EmptyString d j) as [e|value] eqn:Hget; [done|].
    destruct (collect names d j) as [e|rest] eqn:Hrest; [done|].
    destruct (IH j rest Hrest) as (Hsound & Hcomplete & Hsub).
    destruct (get_value name d j value Hget) as [Hfound Honly].
    intros [= <-].
    destruct (String.eqb_spec value EmptyString) as [->|Hne].
    + split; [|split].
      * intros n v Hin. destruct (Hsound n v Hin) as (? & ? & ?).
        split; [by right | done].
      * intros n path v Hn Hj Hv. apply elem_of_cons in Hn as [->|Hn].
        -- by destruct (Honly path v Hj Hv).
        -- by apply (Hcomplete n path v).
      * by apply sublist_cons.
    + split; [|split].
      * intros n v Hin. apply elem_of_cons in Hin as [[= -> ->]|Hin].
        -- split; [by left|]. split; [done | by apply Hfound].
        -- destruct (Hsound n v Hin) as (? & ? & ?). split; [by right | done].
      * intros n path v Hn Hj Hv. apply elem_of_cons in Hn as [->|Hn].
        -- rewrite (Honly path v Hj Hv). by left.
        -- right. by apply (Hcomplete n path v).
      * simpl. by apply sublist_skip.
Qed.

(** X15: the tokens are the session's cookies.  When [get_tokens] returns,
    the user agent is the session's, and the tokens are exactly the
    cookies of one domain of the jar (the one selected for the host) that
    carry one of the five token names and a value that is not empty, each
    under its name and in the order of the names: nothing is invented,
    nothing is left out, and [__cf_bm] is never among them. *)
Theorem tokens_are_the_cookies_of_the_domain j domain user_agent toks ua :
  tokens_from j domain user_agent = inr (toks, ua) ->
  ua = user_agent
  /\ exists cookie_domain,
       select_cookie_domain (list_domains j) domain = inr cookie_domain
       /\ cookie_domain ∈ list_domains j
       /\ (forall n v,
             (n, v) ∈ toks <->
             n ∈ token_names /\ v <> EmptyString
             /\ exists path, j !! (cookie_domain, path, n) = Some v)
       /\ toks.*1 `sublist_of` token_names
       /\ "__cf_bm"%string ∉ toks.*1.
Proof.
  unfold tokens_from.
  pose proof (select_cookie_domain_elem (list_domains j) domain) as Hsel.
  destruct (select_cookie_domain (list_domains j) domain) as [e|cd]; [done|].
  pose proof (Hsel cd eq_refl) as Hin.
  destruct (collect token_names cd j) as [e|cf_cookies] eqn:Hc; [done|].
  intros [= <- <-]. split; [done|]. exists cd.
  destruct (collect_spec token_names cd j cf_cookies Hc)
    as (Hsound & Hcomplete & Hsub).
  split; [done|]. split; [done|]. split; [|split; [done|]].
  - intros n v. split; [by apply Hsound|].
    intros (Hn & Hv & path & Hj). by apply (Hcomplete n path v).
  - intros Hbm. eapply elem_of_sublist in Hbm; [|exact Hsub].
    unfold token_names in Hbm. set_solver.
Qed.

Lemma collect_nothing names d j :
  (forall n, n ∈ names -> cookie_values n d j = []) ->
  collect names d j = inr [].
Proof.
  induction names as [|name names IH]; intros Hnone; simpl; [done|].
  unfold get. rewrite (Hnone name) by (by left).
  rewrite IH; [done|]. intros n Hn. apply Hnone. by right.
Qed.

(** X16: after the protection cookies are cleared there is no token.  In a
    jar whose cookies are all on the path "/", once
    [_clear_cloudflare_cookies] has run, the token loop of [get_tokens]
    finds nothing, whatever domain it reads. *)
Theorem cleared_jar_has_no_tokens j cookie_domain :
  (forall k v, j !! k = Some v -> path_of k = "/"%string) ->
  collect token_names cookie_domain (_clear_cloudflare_cookies j) = inr [].
Proof.
  intros Hroot. apply collect_nothing. intros n Hn.
  destruct (cookie_values n cookie_domain (_clear_cloudflare_cookies j))
    as [|v vs] eqn:Hvals; [done|]. exfalso.
  assert (v ∈ cookie_values n cookie_domain (_clear_cloudflare_cookies j)) as Hv
    by (rewrite Hvals; by left).
  apply elem_of_cookie_values in Hv as (path & Hj).
  unfold _clear_cloudflare_cookies in Hj. rewrite clear_names_lookup in Hj.
  case_decide as Hk; [done|].
  apply Hk. split.
  - unfold name_of, cf_cookie_names, token_names in *. simpl. set_solver.
  - exact (Hroot _ _ Hj).
Qed.
End TokenFacts.

(* ===================================================================== *)
(** ** The factories                                                      *)
(* ===================================================================== *)

Section FactoryFacts.
Import CipherSuiteAdapter Factory.
Implicit Types (scraper sess kwargs : gmap string PyVal) (attr field : string).

Lemma copy_attribute_lookup sess scraper attr name :
  copy_attribute sess scraper attr !! name
  = if decide (name = attr) then
      match sess !! attr with
      | Some val => if is_none val then scraper !! name else Some val
      | None => scraper !! name
      end
    else scraper !! name.
Proof.
  unfold copy_attribute.
  destruct (sess !! attr) as [val|]; [|by case_decide].
  destruct (is_none val); [by case_decide|].
  case_decide as Hn; [subst; by rewrite lookup_insert_eq|].
  by rewrite lookup_insert_ne.
Qed.

Lemma copy_attributes_lookup sess attrs : forall scraper name,
  foldl (copy_attribute sess) scraper attrs !! name
  = if decide (name ∈ attrs) then
      match sess !! name with
      | Some val => if is_none val then scraper !! name else Some val
      | None => scraper !! name
      end
    else scraper !! name.
Proof.
  induction attrs as [|attr attrs IH]; intros scraper name; cbn [foldl].
  - case_decide as H; [by apply elem_of_nil in H | done].
  - rewrite IH, copy_attribute_lookup.
    repeat case_decide; subst; rewrite ?elem_of_cons in *;
      try (destruct (sess !! _) as [val|]; [destruct (is_none val)|]);
      naive_solver.
Qed.

(** X17: what [create_scraper] takes from the session it is given.  An
    attribute of the new scraper is the given session's when it is one of
    the eight copied names and the session has it with a value other than
    [None] (a false value such as an empty dictionary is copied); every
    other attribute is as the constructor left it.  Without a session
    nothing is changed. *)
Theorem create_scraper_lookup scraper (given : option (gmap string PyVal)) name :
  create_scraper scraper given !! name
  = match given with
    | Some sess =>
        if decide (name ∈ copied_attributes) then
          match sess !! name with
          | Some val => if is_none val then scraper !! name else Some val
          | None => scraper !! name
          end
        else scraper !! name
    | None => scraper !! name
    end.
Proof.
  destruct given as [sess|]; [|done]. apply copy_attributes_lookup.
Qed.

Lemma pop_fields_lookup fields : forall (acc : gmap string PyVal * gmap string PyVal) name,
  (foldl pop_field acc fields).1 !! name
  = (if decide (name ∈ fields) then
       match acc.2 !! name with
       | Some v => Some v
       | None => acc.1 !! name
       end
     else acc.1 !! name)
  /\ (foldl pop_field acc fields).2 !! name
     = (if decide (name ∈ fields) then None else acc.2 !! name).
Proof.
  induction fields as [|field fields IH]; intros acc name; cbn [foldl].
  - rewrite !decide_False by (by intros H%elem_of_nil). done.
  - destruct (IH (pop_field acc field) name) as [-> ->].
    unfold pop_field.
    destruct (decide (name = field)) as [->|Hne].
    + rewrite !(decide_True (P := field ∈ field :: fields)) by (by left).
      destruct (acc.2 !! field) as [v|] eqn:Hf; cbn [fst snd].
      * rewrite lookup_delete_eq, lookup_insert_eq. by case_decide.
      * rewrite Hf. by case_decide.
    + assert (name ∈ field :: fields <-> name ∈ fields) as Hiff.
      { rewrite elem_of_cons. naive_solver. }
      destruct (acc.2 !! field) as [v|] eqn:Hf; cbn [fst snd].
      * rewrite lookup_delete_ne, lookup_insert_ne by done.
        destruct (decide (name ∈ fields)) as [Hin|Hout].
        -- by rewrite !decide_True by (by apply Hiff).
        -- by rewrite !decide_False by (by rewrite Hiff).
      * destruct (decide (name ∈ fields)) as [Hin|Hout].
        -- by rewrite !decide_True by (by apply Hiff).
        -- by rewrite !decide_False by (by rewrite Hiff).
Qed.

(** X18: [get_tokens] splits its keywords in two.  A keyword goes to the
    constructor when its name is one of the nineteen listed, and to
    [scraper.get] otherwise; no keyword goes to both and none is lost or
    changed.  So [solveDepth], [min_request_interval] and
    [max_concurrent_requests], which the constructor reads, go to
    [scraper.get] when they are given to [get_tokens]. *)
Theorem split_kwargs_lookup kwargs name :
  (split_kwargs kwargs).1 !! name
  = (if decide (name ∈ constructor_fields) then kwargs !! name else None)
  /\ (split_kwargs kwargs).2 !! name
     = (if decide (name ∈ constructor_fields) then None else kwargs !! name)
  /\ (forall option, option ∈ ["solveDepth"; "min_request_interval";
                               "max_concurrent_requests"]%string ->
        (split_kwargs kwargs).1 !! option = None
        /\ (split_kwargs kwargs).2 !! option = kwargs !! option).
Proof.
  unfold split_kwargs.
  assert (forall n,
    (foldl pop_field (∅, kwargs) constructor_fields).1 !! n
    = (if decide (n ∈ constructor_fields) then kwargs !! n else None)
    /\ (foldl pop_field (∅, kwargs) constructor_fields).2 !! n
       = (if decide (n ∈ constructor_fields) then None else kwargs !! n)) as Hsplit.
  { intros n.
    destruct (pop_fields_lookup constructor_fields (∅, kwargs) n) as [-> ->].
    cbn [fst snd]. rewrite lookup_empty. split; [|done].
    case_decide; [|done]. by destruct (kwargs !! n). }
  split; [apply Hsplit|]. split; [apply Hsplit|].
  intros option Hopt. destruct (Hsplit option) as [-> ->].
  assert (option ∉ constructor_fields) as Hout.
  { intros Hin. unfold constructor_fields in Hin.
    repeat (apply elem_of_cons in Hopt as [->|Hopt];
            [ repeat (apply elem_of_cons in Hin as [Hin|Hin]; [discriminate Hin|]);
              by apply elem_of_nil in Hin |]).
    by apply elem_of_nil in Hopt. }
  by rewrite !decide_False.
Qed.
End FactoryFacts.

(* ===================================================================== *)
(** ** The adapter's source address, once more                            *)
(* ===================================================================== *)

Section AdapterFacts.
Import CipherSuiteAdapter.

(** X19: the source address the adapter keeps is one it accepts.  A value
    the constructor took is kept in a form the constructor takes again and
    keeps unchanged, so the address [CloudScraper] hands from one adapter
    to the next is settled after the first; and what is kept is a false
    value or a tuple that is not empty, never a string. *)
Theorem accepted_source_address_is_settled (v kept : PyVal) :
  init_source_address v = inr kept ->
  init_source_address kept = inr kept
  /\ (truthy kept = false \/ isinstance_tuple kept = true /\ truthy kept = true)
  /\ (truthy kept = true -> isinstance_str kept = false).
Proof.
  intros H. unfold init_source_address in *.
  destruct v as [|b|z|s|items|items]; simpl in *.
  - injection H as <-. simpl. naive_solver.
  - destruct b; simpl in *; [done|]. injection H as <-. simpl. naive_solver.
  - destruct (z =? 0) eqn:Hz; simpl in *; [|done].
    injection H as <-. simpl. rewrite Hz. simpl. naive_solver.
  - destruct (String.eqb s EmptyString) eqn:Hs; simpl in *;
      injection H as <-; simpl; rewrite ?Hs; simpl; naive_solver.
  - destruct items; simpl in *; injection H as <-; simpl; naive_solver.
  - destruct items; simpl in *; [|done]. injection H as <-. simpl. naive_solver.
Qed.
End AdapterFacts.

(* ===================================================================== *)
(** ** Clearing the protection cookies, once more                         *)
(* ===================================================================== *)

Section ClearingFacts.
Import CookieJar.

(** X20: clearing only removes, and clearing twice is clearing once.  Every
    cookie of the jar after [_clear_cloudflare_cookies] was in the jar
    before with the same value, and a second run right after the first
    changes nothing. *)
Theorem clear_cloudflare_cookies_settles (j : jar) :
  _clear_cloudflare_cookies j ⊆ j
  /\ _clear_cloudflare_cookies (_clear_cloudflare_cookies j)
     = _clear_cloudflare_cookies j.
Proof.
  unfold _clear_cloudflare_cookies. split.
  - apply map_subseteq_spec. intros k v. rewrite clear_names_lookup.
    by case_decide.
  - apply map_eq. intros k. rewrite !clear_names_lookup. by case_decide.
Qed.
End ClearingFacts.

(* ===================================================================== *)
(** ** More runs of the scripted collaborators                            *)
(* ===================================================================== *)

Section RefusingRuns.
Import Scripted Hooked.
#[local] Existing Instance refusing | 0.

Lemma pre_hook_error_stops_the_call_witness :
  let w := world [] [] in
  let r := request 5 "GET" url plain w in
  0 <= in_flight w
  /\ outcome (prepare 4 "GET" url plain w) = Return plain
  /\ outcome (pre_hook "GET" url plain
                (tracked (final (prepare 4 "GET" url plain w))))
     = Raise (OtherError "HookError")
  /\ outcome r = Raise (OtherError "HookError")
  /\ in_flight_at_dispatch (events r) = []
  /\ events r = events (prepare 4 "GET" url plain w)
  /\ in_flight (final r) = in_flight w
  /\ request_count (session (final r)) = request_count (session w) + 1.
Proof.
  cbv zeta.
  assert (0 <= in_flight (world [] [])) as Hw by (by vm_compute).
  assert (outcome (prepare 4 "GET" url plain (world [] [])) = Return plain)
    as Hp by (by vm_compute).
  assert (outcome (pre_hook "GET" url plain
                     (tracked (final (prepare 4 "GET" url plain (world [] [])))))
          = Raise (OtherError "HookError")) as Hh by (by vm_compute).
  exact (conj Hw (conj Hp (conj Hh
           (pre_hook_error_stops_the_call 4 "GET" url plain _ _ _ Hw Hp Hh)))).
Defined.
End RefusingRuns.

Section StampingRuns.
Import Scripted Hooked.
#[local] Existing Instance stamping | 0.

Lemma post_hook_response_is_returned_witness :
  let w := world [] [] in
  let ready := tracked (final (prepare 4 "GET" url plain w)) in
  let r := request 5 "GET" url plain w in
  outcome (prepare 4 "GET" url plain w) = Return plain
  /\ outcome (pre_hook "GET" url plain ready) = Return ("GET"%string, url, plain)
  /\ (perform_request (session ready) "GET" url plain (env ready)).1
     = inr (ok "page")
  /\ requestPostHook = Some stamp
  /\ stamp (session ready) (decodeBrotli (ok "page")) = inr (ok "stamped")
  /\ depth w < solveDepth (session w)
  /\ first_match (session w) (ok "stamped") = None
  /\ outcome r = Return (ok "stamped")
  /\ Bounds.solver_depths (events r) = [].
Proof.
  cbv zeta.
  assert (outcome (prepare 4 "GET" url plain (world [] [])) = Return plain)
    as Hp by (by vm_compute).
  assert (outcome (pre_hook "GET" url plain
                     (tracked (final (prepare 4 "GET" url plain (world [] [])))))
          = Return ("GET"%string, url, plain)) as Hh by (by vm_compute).
  assert ((perform_request
             (session (tracked (final (prepare 4 "GET" url plain (world [] [])))))
             "GET" url plain
             (env (tracked (final (prepare 4 "GET" url plain (world [] [])))))).1
          = inr (ok "page")) as Ha by (by vm_compute).
  assert (requestPostHook = Some stamp) as Hk by reflexivity.
  assert (stamp (session (tracked (final (prepare 4 "GET" url plain (world [] [])))))
                (decodeBrotli (ok "page")) = inr (ok "stamped")) as Hs
    by reflexivity.
  assert (depth (world [] []) < solveDepth (session (world [] []))) as Hd
    by (by vm_compute).
  assert (first_match (session (world [] [])) (ok "stamped") = None) as Hn
    by (by vm_compute).
  exact (conj Hp (conj Hh (conj Ha (conj Hk (conj Hs (conj Hd (conj Hn
           (post_hook_response_is_returned 4 "GET" url plain _ _ _ _ _ _ _ _
              Hp Hh Ha Hk Hs Hd Hn)))))))).
Defined.
End StampingRuns.

Section MoreRuns.
Import Scripted Hooked.


Lemma throttle_without_room_never_returns_witness :
  max_concurrent_requests (session no_room) <= in_flight no_room
  /\ throttle_gate plain no_room = true
  /\ outcome (request 5 "GET" url plain no_room) = Diverge.
Proof.
  assert (max_concurrent_requests (session no_room) <= in_flight no_room) as Hm
    by (by vm_compute).
  assert (throttle_gate plain no_room = true) as Hg by (by vm_compute).
  exact (conj Hm (conj Hg
           (throttle_without_room_never_returns 5 "GET" url plain _ Hm Hg))).
Defined.

Lemma backoff_response_keeps_counters_witness :
  let w := depth_set 1 (world [inr too_many] []) in
  let r := request 5 "GET" url plain w in
  outcome (response_phase 4 "GET" url plain w) = Return (too_many, plain)
  /\ depth w < solveDepth (session w)
  /\ first_match (session w) too_many = None
  /\ (is_redirect too_many = true
      \/ status_code too_many = 429 \/ status_code too_many = 503)
  /\ outcome r = Return too_many
  /\ depth (final r) = depth w
  /\ _403_retry_count (session (final r)) = _403_retry_count (session w).
Proof.
  cbv zeta.
  set (w := depth_set 1 (world [inr too_many] [])).
  assert (outcome (response_phase 4 "GET" url plain w) = Return (too_many, plain))
    as Ho by (by vm_compute).
  assert (depth w < solveDepth (session w)) as Hd by (by vm_compute).
  assert (first_match (session w) too_many = None) as Hn by (by vm_compute).
  assert (is_redirect too_many = true
          \/ status_code too_many = 429 \/ status_code too_many = 503) as Hs
    by (right; left; reflexivity).
  exact (conj Ho (conj Hd (conj Hn (conj Hs
           (backoff_response_keeps_counters 4 "GET" url plain w _ _ Ho Hd Hn Hs))))).
Defined.

Lemma retry_counter_after_plain_response_witness :
  let w := {| session := set_403_retry_count 2 (__init__ no_config);
              env := env (world [] []) |} in
  let r := request 5 "GET" url plain w in
  outcome (response_phase 4 "GET" url plain w) = Return (ok "page", plain)
  /\ depth w < solveDepth (session w)
  /\ first_match (session w) (ok "page") = None
  /\ _403_retry_count (session w) = 2
  /\ _403_retry_count (session (final r))
     = if negb (is_redirect (ok "page"))
          && (status_code (ok "page") =? 200)
          && negb (_in_403_retry (session w))
       then 0
       else _403_retry_count (session w).
Proof.
  cbv zeta.
  set (w := {| session := set_403_retry_count 2 (__init__ no_config);
               env := env (world [] []) |}).
  assert (outcome (response_phase 4 "GET" url plain w) = Return (ok "page", plain))
    as Ho by (by vm_compute).
  assert (depth w < solveDepth (session w)) as Hd by (by vm_compute).
  assert (first_match (session w) (ok "page") = None) as Hn by (by vm_compute).
  exact (conj Ho (conj Hd (conj Hn (conj eq_refl
           (retry_counter_after_plain_response 4 "GET" url plain w _ _ Ho Hd Hn))))).
Defined.


Lemma caller_proxies_are_remembered_witness :
  let w := plain_world in
  outcome (prepare 4 "GET" url through_proxy w) = Return through_proxy
  /\ proxies (session (final (prepare 4 "GET" url through_proxy w)))
     = match kw_proxies through_proxy with
       | Some p => if bool_decide (p = ∅) then proxies (session w) else p
       | None => proxies (session w)
       end
  /\ (enable_stealth (session w) = false ->
      truthy (kw_proxies through_proxy) = true ->
      through_proxy = pop_skip_throttle through_proxy).
Proof.
  cbv zeta.
  assert (outcome (prepare 4 "GET" url through_proxy plain_world)
          = Return through_proxy) as Hp by (by vm_compute).
  exact (conj Hp
           (caller_proxies_are_remembered 4 "GET" url through_proxy plain_world
              _ Hp)).
Defined.
End MoreRuns.

Section HealthRuns.
Import SessionHealth Scripted ScriptedHealth.

Lemma refreshed_session_is_fresh_witness :
  let e := env (world [] []) in
  let e' := time_sleep 30 e in
  let s := __init__ no_config in
  ((time_time e').1 - (time_time e).1 <= session_refresh_interval aged)%Q
  /\ (last_403_time aged <= 0
      \/ 60 <= (time_time e').1 - last_403_time aged)%Q
  /\ (_should_refresh_session (health_after (_refresh_session url s aged e)) e').1
     = false.
Proof.
  cbv zeta.
  set (e := env (world [] [])). set (e' := time_sleep 30 e).
  assert (((time_time e').1 - (time_time e).1 <= session_refresh_interval aged)%Q)
    as Hage by (by vm_compute).
  assert ((last_403_time aged <= 0
           \/ 60 <= (time_time e').1 - last_403_time aged)%Q) as H403
    by (left; by vm_compute).
  exact (conj Hage (conj H403
           (refreshed_session_is_fresh url (__init__ no_config) aged e e'
              Hage H403))).
Defined.

Lemma refresh_keeps_recent_403_witness :
  let e := env (world [] []) in
  let e' := time_sleep 30 e in
  let s := __init__ no_config in
  (0 < last_403_time after_403)%Q
  /\ ((time_time e').1 - last_403_time after_403 < 60)%Q
  /\ (_should_refresh_session
        (health_after (_refresh_session url s after_403 e)) e').1 = true.
Proof.
  cbv zeta.
  set (e := env (world [] [])). set (e' := time_sleep 30 e).
  assert ((0 < last_403_time after_403)%Q) as Hpos by (by vm_compute).
  assert (((time_time e').1 - last_403_time after_403 < 60)%Q) as Hrecent
    by (by vm_compute).
  exact (conj Hpos (conj Hrecent
           (refresh_keeps_recent_403 url (__init__ no_config) after_403 e e'
              Hpos Hrecent))).
Defined.
End HealthRuns.

Section TokenRuns.
Import CookieJar Tokens CipherSuiteAdapter.

Lemma dotted_match_is_containment_witness :
  startswith_dot ".example.co" = true
  /\ ("." ++ "example.com")%string
     = (EmptyString ++ ".example.co" ++ "m")%string
  /\ dotted_match "example.com" ".example.co" = true.
Proof.
  exact (conj eq_refl (conj eq_refl
           (dotted_match_is_containment "example.com" EmptyString ".example.co" "m"
              eq_refl eq_refl))).
Defined.

Lemma tokens_are_the_cookies_of_the_domain_witness :
  let j : jar :=
    <[ (".example.com", "/", "cf_clearance")%string := "abc"%string ]>
      {[ (".example.com", "/", "__cf_bm")%string := "xyz"%string ]} in
  tokens_from j "example.com" "Mozilla/5.0"
  = inr ([("cf_clearance", "abc")%string], "Mozilla/5.0"%string)
  /\ "Mozilla/5.0"%string = "Mozilla/5.0"%string
  /\ exists cookie_domain,
       select_cookie_domain (list_domains j) "example.com" = inr cookie_domain
       /\ cookie_domain ∈ list_domains j
       /\ (forall n v,
             (n, v) ∈ [("cf_clearance", "abc")%string] <->
             n ∈ token_names /\ v <> EmptyString
             /\ exists path, j !! (cookie_domain, path, n) = Some v)
       /\ [("cf_clearance", "abc")%string].*1 `sublist_of` token_names
       /\ "__cf_bm"%string ∉ [("cf_clearance", "abc")%string].*1.
Proof.
  cbv zeta.
  set (j := <[ (".example.com", "/", "cf_clearance")%string := "abc"%string ]>
              {[ (".example.com", "/", "__cf_bm")%string := "xyz"%string ]} : jar).
  assert (tokens_from j "example.com" "Mozilla/5.0"
          = inr ([("cf_clearance", "abc")%string], "Mozilla/5.0"%string)) as Ht
    by (by vm_compute).
  exact (conj Ht
           (tokens_are_the_cookies_of_the_domain j "example.com" "Mozilla/5.0"
              _ _ Ht)).
Defined.

Lemma cleared_jar_has_no_tokens_witness :
  let j : jar :=
    {[ ("example.com", "/", "cf_clearance")%string := "abc"%string ]} in
  (forall k v, j !! k = Some v -> path_of k = "/"%string)
  /\ collect token_names "example.com" (_clear_cloudflare_cookies j) = inr [].
Proof.
  cbv zeta.
  set (j := {[ ("example.com", "/", "cf_clearance")%string := "abc"%string ]} : jar).
  assert (forall k v, j !! k = Some v -> path_of k = "/"%string) as Hroot.
  { intros k v Hk. apply lookup_singleton_Some in Hk as [<- _]. reflexivity. }
  exact (conj Hroot (cleared_jar_has_no_tokens j "example.com" Hroot)).
Defined.

Lemma accepted_source_address_is_settled_witness :
  let kept := PyTuple [PyStr "10.0.0.1"; PyInt 0] in
  init_source_address (PyStr "10.0.0.1") = inr kept
  /\ init_source_address kept = inr kept
  /\ (truthy kept = false \/ isinstance_tuple kept = true /\ truthy kept = true)
  /\ (truthy kept = true -> isinstance_str kept = false).
Proof.
  exact (conj eq_refl
           (accepted_source_address_is_settled (PyStr "10.0.0.1") _ eq_refl)).
Defined.
End TokenRuns.
